(** * ObscuraRT: frame sources, colour conversion and the compute resource set

    A shallow embedding of [frame_grabber.cpp], [compute_pipeline.cpp] and the
    upload step of [main.cpp], with the properties of the specification
    stated and settled against it.

    Conventions.  A [uint32_t] is a [Z] in [0, 2^32) and every arithmetic
    operation of the source on it is followed by [u32]; a [uint8_t] is a [Z]
    in [0, 256).  A [std::vector<uint8_t>] is a [list Z].  A C++ execution
    that leaves defined behaviour (a store outside a vector, a division by
    zero) has no result: [None] or [Undefined]. *)

From Stdlib Require Import String ZArith List Lia Bool Arith.
Import ListNotations.
Local Open Scope Z_scope.

(* ================================================================== *)
(** * Part I: the embedding                                            *)
(* ================================================================== *)

(** ** Machine arithmetic and raw storage *)

Module Machine.

Definition u32 (z : Z) : Z := z mod 2 ^ 32.
Definition u8 (z : Z) : Z := z mod 2 ^ 8.

(** A value of type [int], two's complement on 32 bits. *)
Definition i32 (z : Z) : Z := (z + 2 ^ 31) mod 2 ^ 32 - 2 ^ 31.

(** Unsigned division as the hardware has it: no result for a zero divisor. *)
Definition udiv (a b : Z) : option Z :=
  if b =? 0 then None else Some (a / b).

(** [std::vector<uint8_t>::resize(n)]: keeps the first [n] elements and
    value-initialises the new ones. *)
Definition resize (v : list Z) (n : nat) : list Z :=
  firstn n v ++ repeat 0 (n - length v).

(** [*(base + i) = b] for a pointer into the storage [buf]. *)
Fixpoint store (buf : list Z) (i : nat) (b : Z) : option (list Z) :=
  match buf, i with
  | [], _ => None
  | _ :: t, O => Some (b :: t)
  | h :: t, S i' => option_map (cons h) (store t i' b)
  end.

(** [for (uint32_t i = i0; i < i0 + n; i++) body(i)], threading the state
    and stopping at the first undefined step. *)
Fixpoint for_upto {S : Type} (n : nat) (i : Z)
         (body : Z -> S -> option S) (s : S) : option S :=
  match n with
  | O => Some s
  | Datatypes.S n' =>
      match body i s with
      | None => None
      | Some s' => for_upto n' (i + 1) body s'
      end
  end.

(** The integers [i0, i0+1, ..., i0+n-1]. *)
Fixpoint zrange (i0 : Z) (n : nat) : list Z :=
  match n with
  | O => []
  | Datatypes.S n' => i0 :: zrange (i0 + 1) n'
  end.

End Machine.
Import Machine.

Declare Scope opt_scope.
Notation "x <- c ;; k" :=
  (match c with Some x => k | None => None end)
  (at level 61, c at next level, right associativity) : opt_scope.
Local Open Scope opt_scope.

(** ** [struct Frame] *)

Record Frame : Type := mkFrame
  { width : Z;
    height : Z;
    stride : Z;          (* bytes per row *)
    data : list Z }.

Definition getTotalBytes (f : Frame) : nat := length (data f).

(** The byte of a frame at offset [i]. *)
Definition byte_at (f : Frame) (i : Z) : option Z :=
  nth_error (data f) (Z.to_nat i).

(** ** [class FrameGrabber]: the synthetic gradient *)

Module FrameGrabber.

Record t : Type := mk
  { width_ : Z;
    height_ : Z;
    frame_count_ : Z }.

(** Body of the inner loop: the four channel values of pixel [(x, y)],
    stored through [ptr], which advances by four. *)
Definition put_pixel (W H y x : Z) (st : nat * list Z)
  : option (nat * list Z) :=
  let '(ptr, buf) := st in
  r <- udiv (u32 (x * 255)) W ;;
  g <- udiv (u32 (y * 255)) H ;;
  b <- udiv (u32 (u32 (x + y) * 255)) (u32 (W + H)) ;;
  let a := 255 in
  buf <- store buf ptr (u8 r) ;;
  buf <- store buf (ptr + 1)%nat (u8 g) ;;
  buf <- store buf (ptr + 2)%nat (u8 b) ;;
  buf <- store buf (ptr + 3)%nat (u8 a) ;;
  Some ((ptr + 4)%nat, buf).

Definition grabFrame (g : t) (out_frame : Frame)
  : option (bool * t * Frame) :=
  let W := width_ g in
  let H := height_ g in
  let pixels := u32 (W * H) in
  let buf := resize (data out_frame) (Z.to_nat (pixels * 4)) in
  st <- for_upto (Z.to_nat H) 0
          (fun y => for_upto (Z.to_nat W) 0 (put_pixel W H y))
          (0%nat, buf) ;;
  Some (true,
        mk W H (u32 (frame_count_ g + 1)),
        mkFrame W H (u32 (W * 4)) (snd st)).

(** The four bytes the loop body computes for pixel [(x, y)]. *)
Definition pixel (W H y x : Z) : list Z :=
  [ u8 (u32 (x * 255) / W);
    u8 (u32 (y * 255) / H);
    u8 (u32 (u32 (x + y) * 255) / u32 (W + H));
    u8 255 ].

Definition row (W H y : Z) : list Z :=
  flat_map (pixel W H y) (zrange 0 (Z.to_nat W)).

Definition pattern (W H : Z) : list Z :=
  flat_map (row W H) (zrange 0 (Z.to_nat H)).

(** [FrameGrabber::init] and [FrameGrabber::cleanup] have empty bodies. *)
Definition init (source : option string) (g : t) : t := g.

Definition cleanup (g : t) : t := g.

End FrameGrabber.

(** ** The capture device, as the process sees it *)

Module V4L2.

Inductive request : Type :=
| VIDIOC_QUERYCAP
| VIDIOC_S_FMT (w h : Z).          (* YUYV, field "any", at [w] x [h] *)

Inductive syscall : Type :=
| SysOpen (path : string)
| SysClose (fd : Z)
| SysIoctl (fd : Z) (req : request)
| SysRead (fd : Z) (count : Z).

(** What one [read] finds: an error, or the bytes the device has ready. *)
Inductive chunk : Type :=
| ReadError
| ReadData (bytes : list Z).

Record os : Type := mkOs
  { open_result : string -> Z;           (* a descriptor, or -1 *)
    querycap : Z * Z;                    (* return value, capabilities *)
    s_fmt : Z -> Z -> Z * (Z * Z);       (* return value, width and height
                                            left in the format structure *)
    pending : list chunk;                (* what successive reads find *)
    calls : list syscall }.              (* system calls issued so far *)

Definition V4L2_CAP_VIDEO_CAPTURE : Z := 1.

Definition logged (c : syscall) (o : os) : os :=
  mkOs (open_result o) (querycap o) (s_fmt o) (pending o) (calls o ++ [c]).

Definition sys_open (path : string) (o : os) : Z * os :=
  (open_result o path, logged (SysOpen path) o).

Definition sys_close (fd : Z) (o : os) : os := logged (SysClose fd) o.

Definition sys_ioctl_querycap (fd : Z) (o : os) : Z * Z * os :=
  (fst (querycap o), snd (querycap o), logged (SysIoctl fd VIDIOC_QUERYCAP) o).

Definition sys_ioctl_s_fmt (fd : Z) (w h : Z) (o : os) : Z * (Z * Z) * os :=
  (fst (s_fmt o w h), snd (s_fmt o w h),
   logged (SysIoctl fd (VIDIOC_S_FMT w h)) o).

(** [read(fd, buf, count)]: at most [count] bytes of the next chunk are
    copied to the front of [buf]; the rest of the chunk is dropped by the
    device.  Returns the byte count, 0 at end of stream, -1 on error. *)
Definition sys_read (fd : Z) (buf : list Z) (count : Z) (o : os)
  : Z * list Z * os :=
  let o1 := mkOs (open_result o) (querycap o) (s_fmt o)
                 (tl (pending o)) (calls o ++ [SysRead fd count]) in
  match pending o with
  | [] => (0, buf, o1)
  | ReadError :: _ => (-1, buf, o1)
  | ReadData bytes :: _ =>
      let n := Nat.min (length bytes) (Z.to_nat count) in
      (Z.of_nat n, firstn n bytes ++ skipn n buf, o1)
  end.

End V4L2.

(** How a call that may throw ends. *)
Inductive outcome (A : Type) : Type :=
| Returns (a : A)
| Throws (what : string)           (* std::runtime_error *)
| Undefined.                       (* the execution left defined behaviour *)
Arguments Returns {A} a.
Arguments Throws {A} what.
Arguments Undefined {A}.

(** ** [class WebcamGrabber] *)

Module WebcamGrabber.
Import V4L2.

Record t : Type := mk
  { width_ : Z;
    height_ : Z;
    frame_count_ : Z;
    fd_ : Z;
    buffer_ : list Z;
    device_ : string }.

(** [WebcamGrabber(width, height, device)] *)
Definition new (width height : Z) (device : string) : t :=
  mk width height 0 (-1) [] device.

Definition cleanup (g : t) (o : os) : t * os :=
  let '(fd, o) :=
    if 0 <=? fd_ g then (-1, sys_close (fd_ g) o) else (fd_ g, o) in
  (mk (width_ g) (height_ g) (frame_count_ g) fd [] (device_ g), o).

Definition with_fd (g : t) (fd : Z) : t :=
  mk (width_ g) (height_ g) (frame_count_ g) fd (buffer_ g) (device_ g).

Definition initV4L2 (g : t) (o : os) : bool * t * os :=
  (* Open device *)
  let '(fd, o) := sys_open (device_ g) o in
  let g := with_fd g fd in
  if fd <? 0 then (false, g, o)
  else
    (* Query capabilities *)
    let '(ret, capabilities, o) := sys_ioctl_querycap fd o in
    if ret <? 0 then (false, with_fd g (-1), sys_close fd o)
    else if Z.land capabilities V4L2_CAP_VIDEO_CAPTURE =? 0
    then (false, with_fd g (-1), sys_close fd o)
    else
      (* Set format: YUYV at desired resolution *)
      let '(ret, (pix_width, pix_height), o) :=
        sys_ioctl_s_fmt fd (width_ g) (height_ g) o in
      if ret <? 0 then (false, with_fd g (-1), sys_close fd o)
      else
        (* Verify actual resolution *)
        let '(w, h) :=
          if negb (pix_width =? width_ g) || negb (pix_height =? height_ g)
          then (pix_width, pix_height)
          else (width_ g, height_ g) in
        (* Just allocate output buffer *)
        let buffer := resize (buffer_ g) (Z.to_nat (u32 (u32 (w * h) * 4))) in
        (true, mk w h (frame_count_ g) fd buffer (device_ g), o).

Definition init (source : option string) (g : t) (o : os)
  : outcome unit * t * os :=
  let g := match source with
           | Some s => mk (width_ g) (height_ g) (frame_count_ g)
                          (fd_ g) (buffer_ g) s
           | None => g
           end in
  let '(ok, g, o) := initV4L2 g o in
  if ok then (Returns tt, g, o)
  else (Throws "V4L2 initialization failed", g, o).

Definition clamp (v : Z) : Z := Z.max 0 (Z.min 255 v).

(** The loop of [yuyv2rgba] from counter value [i]: [yuyv] and [rgba] are
    what the two advancing pointers still have in front of them.  An access
    past either end has no result.  The sums are [int] values; reducing a
    sum once is reducing each of its operations. *)
Fixpoint yuyv2rgba_from (i pixels : Z) (yuyv rgba : list Z) {struct yuyv}
  : option (list Z) :=
  if i <? pixels then
    match yuyv, rgba with
    | y1 :: u :: y2 :: v :: yuyv', _ :: _ :: _ :: _ :: _ :: _ :: _ :: _ :: rgba' =>
        let c1 := y1 - 16 in
        let c2 := y2 - 16 in
        let d := u - 128 in
        let e := v - 128 in
        (* Pixel 1 *)
        let r1 := Z.shiftr (i32 (298 * c1 + 409 * e + 128)) 8 in
        let g1 := Z.shiftr (i32 (298 * c1 - 100 * d - 208 * e + 128)) 8 in
        let b1 := Z.shiftr (i32 (298 * c1 + 516 * d + 128)) 8 in
        (* Pixel 2 *)
        let r2 := Z.shiftr (i32 (298 * c2 + 409 * e + 128)) 8 in
        let g2 := Z.shiftr (i32 (298 * c2 - 100 * d - 208 * e + 128)) 8 in
        let b2 := Z.shiftr (i32 (298 * c2 + 516 * d + 128)) 8 in
        rest <- yuyv2rgba_from (u32 (i + 2)) pixels yuyv' rgba' ;;
        Some (u8 (clamp r1) :: u8 (clamp g1) :: u8 (clamp b1) :: 255 ::
              u8 (clamp r2) :: u8 (clamp g2) :: u8 (clamp b2) :: 255 :: rest)
    | _, _ => None
    end
  else Some rgba.

Definition yuyv2rgba (yuyv rgba : list Z) (pixels : Z) : option (list Z) :=
  yuyv2rgba_from 0 pixels yuyv rgba.

Definition grabFrame (g : t) (out_frame : Frame) (o : os)
  : option (bool * t * Frame * os) :=
  if fd_ g <? 0 then Some (false, g, out_frame, o)
  else
    (* Simple read-based approach *)
    let size := u32 (u32 (width_ g * height_ g) * 2) in
    let yuyv_buffer := repeat 0 (Z.to_nat size) in
    let '(bytes_read, yuyv_buffer, o) := sys_read (fd_ g) yuyv_buffer size o in
    if negb (bytes_read =? size) then Some (false, g, out_frame, o)
    else
      (* Convert YUYV to RGBA *)
      rgba <- yuyv2rgba yuyv_buffer (buffer_ g) (u32 (width_ g * height_ g)) ;;
      (* Fill output frame *)
      Some (true,
            mk (width_ g) (height_ g) (u32 (frame_count_ g + 1))
               (fd_ g) rgba (device_ g),
            mkFrame (width_ g) (height_ g) (u32 (width_ g * 4)) rgba,
            o).

End WebcamGrabber.

(** ** The Vulkan device, as the process sees it *)

Module Vk.

Definition handle : Type := Z.
Definition VK_NULL_HANDLE : handle := 0.

Inductive object : Type :=
| Image | DeviceMemory | ImageView | Buffer | ShaderModule
| DescriptorSetLayout | PipelineLayout | Pipeline | DescriptorPool
| DescriptorSet | CommandBuffer | Fence.

Inductive event : Type :=
| Created (o : object) (h : handle)
| Destroyed (o : object) (h : handle)
| ShaderCode (codeSize : Z) (pCode : list Z)
| BufferInfo (size : Z)
| DescriptorWrite (set : handle) (binding : Z) (view : handle).

(** The device hands out fresh non-null handles; [accepts n] tells whether
    the [n]-th creating call succeeds. *)
Record driver : Type := mkDriver
  { next : positive;
    accepts : nat -> bool;
    ncalls : nat;
    log : list event }.

Definition emit (e : event) (d : driver) : driver :=
  mkDriver (next d) (accepts d) (ncalls d) (log d ++ [e]).

(** A [vkCreate...] or [vkAllocate...] call for one object: [Some h] on
    [VK_SUCCESS]. *)
Definition create (o : object) (d : driver) : option handle * driver :=
  if accepts d (ncalls d)
  then (Some (Z.pos (next d)),
        mkDriver (Pos.succ (next d)) (accepts d) (S (ncalls d))
                 (log d ++ [Created o (Z.pos (next d))]))
  else (None, mkDriver (next d) (accepts d) (S (ncalls d)) (log d)).

(** [vkAllocateDescriptorSets] with [descriptorSetCount = 2]. *)
Definition create2 (o : object) (d : driver)
  : option (handle * handle) * driver :=
  if accepts d (ncalls d)
  then let h0 := Z.pos (next d) in
       let h1 := Z.pos (Pos.succ (next d)) in
       (Some (h0, h1),
        mkDriver (Pos.succ (Pos.succ (next d))) (accepts d) (S (ncalls d))
                 (log d ++ [Created o h0; Created o h1]))
  else (None, mkDriver (next d) (accepts d) (S (ncalls d)) (log d)).

Definition destroy (o : object) (h : handle) (d : driver) : driver :=
  emit (Destroyed o h) d.

Fixpoint created (l : list event) : list handle :=
  match l with
  | [] => []
  | Created _ h :: l' => h :: created l'
  | _ :: l' => created l'
  end.

Fixpoint destroyed (l : list event) : list handle :=
  match l with
  | [] => []
  | Destroyed _ h :: l' => h :: destroyed l'
  | _ :: l' => destroyed l'
  end.

End Vk.

(** ** The shader asset *)

Module Asset.

(** The files the process can open, by name, with their bytes. *)
Definition files : Type := string -> option (list Z).

(** Four bytes in memory read as one [uint32_t] (little-endian host). *)
Definition word_le (b0 b1 b2 b3 : Z) : Z :=
  Z.lor (Z.lor b0 (Z.shiftl b1 8)) (Z.lor (Z.shiftl b2 16) (Z.shiftl b3 24)).

Fixpoint words_le (bytes : list Z) : list Z :=
  match bytes with
  | b0 :: b1 :: b2 :: b3 :: rest => word_le b0 b1 b2 b3 :: words_le rest
  | _ => []
  end.


(** [memcpy]/[read] of [src] to the front of the storage [dst]. *)
Definition copy_into (dst src : list Z) : option (list Z) :=
  if (length src <=? length dst)%nat
  then Some (src ++ skipn (length src) dst)
  else None.

(** [readShaderFile]: the vector has [fileSize / 4] words, and [fileSize]
    bytes are read into its storage. *)
Definition readShaderFile (fs : files) (filename : string)
  : outcome (list Z) :=
  match fs filename with
  | None => Throws ("Failed to open shader file: " ++ filename)
  | Some contents =>
      let fileSize := length contents in
      let buffer := repeat 0 (4 * (fileSize / 4))%nat in
      match copy_into buffer contents with
      | Some storage => Returns (words_le storage)
      | None => Undefined
      end
  end.

End Asset.

(** ** [class ComputePipeline] *)

Module ComputePipeline.
Import Vk Asset.

(** The handle members of the class. *)
Inductive member : Type :=
| input_image_ | output_image_
| input_image_memory_ | output_image_memory_
| input_image_view_ | output_image_view_
| staging_buffer_ | staging_buffer_memory_
| compute_shader_ | descriptor_set_layout_ | pipeline_layout_
| compute_pipeline_ | descriptor_pool_
| descriptor_sets_0 | descriptor_sets_1
| compute_command_buffer_ | compute_fence_.

Scheme Equality for member.

Record t : Type := mk
  { width_ : Z;
    height_ : Z;
    handles : member -> handle }.

Definition get (m : member) (p : t) : handle := handles p m.

Definition set (m : member) (h : handle) (p : t) : t :=
  mk (width_ p) (height_ p)
     (fun m' => if member_beq m m' then h else handles p m').

(** Modelled from the spec: [compute_pipeline.h], which declares the
    members and their initialisers, is not among the sources; a pipeline
    that was never initialised holds null handles only ("no-op on
    already-null handles"). *)
Definition new : t := mk 0 0 (fun _ => VK_NULL_HANDLE).

(** Modelled from the spec: the accessor is declared in the same missing
    header; the staging buffer is "sized [width*height*4] bytes", the
    [bufferInfo.size] of [createStagingBuffer]. *)
Definition getStagingBufferSize (p : t) : Z :=
  u32 (u32 (width_ p * height_ p) * 4).

(** Member functions run on the object and the device; an exception
    leaves both as they are at the [throw]. *)
Definition world : Type := (t * driver)%type.
Definition M (A : Type) : Type := world -> outcome A * world.

Definition ret {A : Type} (a : A) : M A := fun w => (Returns a, w).

Definition bind {A B : Type} (c : M A) (k : A -> M B) : M B :=
  fun w =>
    match c w with
    | (Returns a, w') => k a w'
    | (Throws what, w') => (Throws what, w')
    | (Undefined, w') => (Undefined, w')
    end.

Definition throw {A : Type} (what : string) : M A :=
  fun w => (Throws what, w).

Declare Scope pipe_scope.
Delimit Scope pipe_scope with pipe.
Notation "x <- c ;; k" := (bind c (fun x => k))
  (at level 61, c at next level, right associativity) : pipe_scope.
Notation "c ;;; k" := (bind c (fun _ => k))
  (at level 61, right associativity) : pipe_scope.
Local Open Scope pipe_scope.

Definition lift {A : Type} (r : outcome A) : M A := fun w => (r, w).

Definition check (ok : bool) (what : string) : M unit :=
  if ok then ret tt else throw what.

Definition tell (e : event) : M unit :=
  fun '(p, d) => (Returns tt, (p, emit e d)).

(** One creating call whose result is written to the member [dst];
    answers whether it returned [VK_SUCCESS]. *)
Definition vk_create (o : object) (dst : member) : M bool :=
  fun '(p, d) =>
    match create o d with
    | (Some h, d') => (Returns true, (set dst h p, d'))
    | (None, d') => (Returns false, (p, d'))
    end.

(** [a != VK_SUCCESS || b != VK_SUCCESS], negated: [b] is only attempted
    after [a] succeeded. *)
Definition both (a b : M bool) : M bool :=
  (ok <- a ;; if ok then b else ret false)%pipe.

Definition createImages : M unit :=
  ok <- both (vk_create Image input_image_)
             (vk_create Image output_image_) ;;
  check ok "Failed to create images" ;;;
  (* Allocate memory *)
  ok <- both (vk_create DeviceMemory input_image_memory_)
             (vk_create DeviceMemory output_image_memory_) ;;
  check ok "Failed to allocate image memory" ;;;
  (* Create image views *)
  ok <- vk_create ImageView input_image_view_ ;;
  check ok "Failed to create input image view" ;;;
  ok <- vk_create ImageView output_image_view_ ;;
  check ok "Failed to create output image view".

Definition createStagingBuffer : M unit :=
  size <- (fun w => (Returns (getStagingBufferSize (fst w)), w)) ;;
  tell (BufferInfo size) ;;;
  ok <- vk_create Buffer staging_buffer_ ;;
  check ok "Failed to create staging buffer" ;;;
  ok <- vk_create DeviceMemory staging_buffer_memory_ ;;
  check ok "Failed to allocate staging buffer memory".

Definition createShaderModule (fs : files) : M unit :=
  code <- lift (readShaderFile fs "shaders/pixelation.comp.spv") ;;
  tell (ShaderCode (Z.of_nat (length code) * 4) code) ;;;
  ok <- vk_create ShaderModule compute_shader_ ;;
  check ok "Failed to create compute shader module".

Definition createDescriptorSetLayout : M unit :=
  ok <- vk_create DescriptorSetLayout descriptor_set_layout_ ;;
  check ok "Failed to create descriptor set layout".

Definition createPipelineLayout : M unit :=
  ok <- vk_create PipelineLayout pipeline_layout_ ;;
  check ok "Failed to create pipeline layout".

Definition createComputePipeline : M unit :=
  ok <- vk_create Pipeline compute_pipeline_ ;;
  check ok "Failed to create compute pipeline".

Definition createDescriptorPool : M unit :=
  ok <- vk_create DescriptorPool descriptor_pool_ ;;
  check ok "Failed to create descriptor pool".

Definition allocateDescriptorSets : M unit :=
  ok <- (fun '(p, d) =>
           match create2 DescriptorSet d with
           | (Some (h0, h1), d') =>
               (Returns true,
                (set descriptor_sets_1 h1 (set descriptor_sets_0 h0 p), d'))
           | (None, d') => (Returns false, (p, d'))
           end) ;;
  check ok "Failed to allocate descriptor sets".

Definition updateDescriptorSet (slot : member) : M unit :=
  fun '(p, d) =>
    (Returns tt,
     (p, emit (DescriptorWrite (get slot p) 1 (get output_image_view_ p))
           (emit (DescriptorWrite (get slot p) 0 (get input_image_view_ p))
              d))).

Definition updateDescriptorSets : M unit :=
  updateDescriptorSet descriptor_sets_0 ;;;
  updateDescriptorSet descriptor_sets_1.

Definition createCommandBuffer : M unit :=
  ok <- vk_create CommandBuffer compute_command_buffer_ ;;
  check ok "Failed to allocate command buffer".

Definition createSynchronization : M unit :=
  ok <- vk_create Fence compute_fence_ ;;
  check ok "Failed to create fence".

Definition init (fs : files) (width height : Z) : M unit :=
  (fun '(p, d) => (Returns tt, (mk width height (handles p), d))) ;;;
  createImages ;;;
  createStagingBuffer ;;;
  createShaderModule fs ;;;
  createDescriptorSetLayout ;;;
  createPipelineLayout ;;;
  createComputePipeline ;;;
  createDescriptorPool ;;;
  allocateDescriptorSets ;;;
  updateDescriptorSets ;;;
  createCommandBuffer ;;;
  createSynchronization.

(** [if (m != VK_NULL_HANDLE) vkDestroy...(device, m, nullptr);] *)
Definition release (o : object) (m : member) : M unit :=
  fun '(p, d) =>
    if negb (get m p =? VK_NULL_HANDLE)
    then (Returns tt, (p, destroy o (get m p) d))
    else (Returns tt, (p, d)).

Definition cleanup : M unit :=
  release Fence compute_fence_ ;;;
  release DescriptorPool descriptor_pool_ ;;;
  release Pipeline compute_pipeline_ ;;;
  release PipelineLayout pipeline_layout_ ;;;
  release DescriptorSetLayout descriptor_set_layout_ ;;;
  release ShaderModule compute_shader_ ;;;
  release ImageView input_image_view_ ;;;
  release ImageView output_image_view_ ;;;
  release Image input_image_ ;;;
  release Image output_image_ ;;;
  release DeviceMemory input_image_memory_ ;;;
  release DeviceMemory output_image_memory_ ;;;
  release Buffer staging_buffer_ ;;;
  release DeviceMemory staging_buffer_memory_.

Definition getDescriptorSet (p : t) (frame_index : Z) : handle :=
  if u32 frame_index mod 2 =? 0
  then get descriptor_sets_0 p else get descriptor_sets_1 p.

(** [processFrame] is a stub: its body is empty. *)
Definition processFrame (input_image output_image : handle) (block_size : Z)
  : M unit := ret tt.

End ComputePipeline.

(** ** [ObscuraRT::run]: the upload of one frame *)

Module ObscuraRT.
Import Asset.

(** [vkMapMemory] gives the [getStagingBufferSize()] bytes [mapped];
    [memcpy] then copies [frame.getTotalBytes()] bytes to their front. *)
Definition upload (mapped : list Z) (frame : Frame) : outcome (list Z) :=
  match copy_into mapped (data frame) with
  | Some m => Returns m
  | None => Undefined
  end.

End ObscuraRT.

(** ** [class ObscuraRT] and [main]: the per-frame loop and the start-up *)

Module Orchestrator.
Import Asset ObscuraRT.

Definition MAX_FRAMES : Z := 300.

(** The loop of [run], [remaining] trips before [frame_count] reaches
    [MAX_FRAMES]: each trip grabs into a fresh [Frame], leaves the loop when
    the source returns false, uploads, calls the stub and counts.  The
    throughput report only prints. *)
Fixpoint run_loop (remaining : nat) (frame_count : Z)
         (frame_grabber_ : FrameGrabber.t) (mapped : list Z)
  : outcome (Z * FrameGrabber.t * list Z) :=
  match remaining with
  | O => Returns (frame_count, frame_grabber_, mapped)
  | S remaining' =>
      match FrameGrabber.grabFrame frame_grabber_ (mkFrame 0 0 0 []) with
      | None => Undefined
      | Some (false, fg, _) => Returns (frame_count, fg, mapped)
      | Some (true, fg, frame) =>
          match upload mapped frame with
          | Returns m => run_loop remaining' (frame_count + 1) fg m
          | Throws what => Throws what
          | Undefined => Undefined
          end
      end
  end.

Definition run (frame_grabber_ : FrameGrabber.t) (mapped : list Z)
  : outcome (Z * FrameGrabber.t * list Z) :=
  run_loop (Z.to_nat MAX_FRAMES) 0 frame_grabber_ mapped.

(** [ObscuraRT::init], on the device the Vulkan context provides: the test
    pattern source and the pipeline, both at 1920x1080. *)
Definition init (fs : files) (d : Vk.driver)
  : outcome unit * FrameGrabber.t * ComputePipeline.world :=
  let frame_grabber_ :=
    FrameGrabber.init None (FrameGrabber.mk 1920 1080 0) in
  let '(r, w) :=
    ComputePipeline.init fs 1920 1080 (ComputePipeline.new, d) in
  (r, frame_grabber_, w).

(** [compute_pipeline_.reset()]: the destructor of the pipeline runs its
    [cleanup]. *)
Definition cleanup (w : ComputePipeline.world) : ComputePipeline.world :=
  snd (ComputePipeline.cleanup w).


End Orchestrator.

(** ** Notions the statements are written in *)

(** The colour conversion in the words of the specification: BT.601 per
    pixel, [>> 8] read as the quotient by 256 rounded down, every channel
    clamped to [0, 255], alpha 255. *)
Module BT601.

Definition clamp_spec (v : Z) : Z :=
  if v <? 0 then 0 else if 255 <? v then 255 else v.

Definition red (y u v : Z) : Z :=
  clamp_spec ((298 * (y - 16) + 409 * (v - 128) + 128) / 2 ^ 8).

Definition green (y u v : Z) : Z :=
  clamp_spec ((298 * (y - 16) - 100 * (u - 128) - 208 * (v - 128) + 128) / 2 ^ 8).

Definition blue (y u v : Z) : Z :=
  clamp_spec ((298 * (y - 16) + 516 * (u - 128) + 128) / 2 ^ 8).

Definition rgba (y u v : Z) : list Z :=
  [red y u v; green y u v; blue y u v; 255].

(** One packed group [Y1 U Y2 V] and the two pixels it stands for. *)
Definition group : Type := (Z * Z * Z * Z)%type.

Definition packed (q : group) : list Z :=
  let '(y1, u, y2, v) := q in [y1; u; y2; v].

Definition pixels_of (q : group) : list Z :=
  let '(y1, u, y2, v) := q in rgba y1 u v ++ rgba y2 u v.

Definition is_byte (b : Z) : Prop := 0 <= b <= 255.

Definition bytes (q : group) : Prop :=
  let '(y1, u, y2, v) := q in
  is_byte y1 /\ is_byte u /\ is_byte y2 /\ is_byte v.

End BT601.

(** One acquisition of the capture device: the size it asks for, what the
    read answers, and the system state the read leaves. *)
Module Acquisition.
Import V4L2 WebcamGrabber.

Definition yuyv_size (g : t) : Z :=
  u32 (u32 (width_ g * height_ g) * 2).

Definition the_read (g : t) (o : os) : Z * list Z * os :=
  sys_read (fd_ g) (repeat 0 (Z.to_nat (yuyv_size g))) (yuyv_size g) o.

Definition bytes_read (g : t) (o : os) : Z := fst (fst (the_read g o)).

Definition after_read (g : t) (o : os) : os := snd (the_read g o).

(** [later g g']: [g'] is [g] after any number of [grabFrame] calls. *)
Inductive later (g : t) : t -> Prop :=
| later_now : later g g
| later_grab (g1 g2 : t) (out f : Frame) (o o' : os) (b : bool) :
    later g g1 ->
    grabFrame g1 out o = Some (b, g2, f, o') ->
    later g g2.

End Acquisition.

(** Frame dimensions. *)
Module Dimensions.

(** Dimensions for which the generator stays inside defined behaviour: the
    pixel count fits 32 bits and the divisor [width_ + height_] is not
    wrapped to zero. *)
Definition fits (W H : Z) : Prop :=
  0 <= W /\ 0 <= H /\ W * H < 2 ^ 32 /\ W + H < 2 ^ 32.

(** Dimensions on which no intermediate product leaves 32 bits. *)
Definition exact_dims (W H : Z) : Prop :=
  0 < W /\ 0 < H /\ W * H < 2 ^ 32 /\ (W + H - 2) * 255 < 2 ^ 32.

End Dimensions.

(** The handle members in the order [init] fills them, and in the order
    [cleanup] releases them. *)
Module Lifecycle.
Import Vk ComputePipeline.

Definition image_members : list member :=
  [input_image_; output_image_; input_image_memory_; output_image_memory_;
   input_image_view_; output_image_view_].

Definition staging_members : list member :=
  [staging_buffer_; staging_buffer_memory_].

Definition late_members : list member :=
  [compute_shader_; descriptor_set_layout_; pipeline_layout_;
   compute_pipeline_; descriptor_pool_; descriptor_sets_0; descriptor_sets_1;
   compute_command_buffer_; compute_fence_].

Definition creation_order : list member :=
  image_members ++ staging_members ++ late_members.

Definition release_order : list member :=
  [compute_fence_; descriptor_pool_; compute_pipeline_; pipeline_layout_;
   descriptor_set_layout_; compute_shader_;
   input_image_view_; output_image_view_;
   input_image_; output_image_;
   input_image_memory_; output_image_memory_;
   staging_buffer_; staging_buffer_memory_].

(** Members [cleanup] has no release for: the descriptor sets go with their
    pool, the command buffer with the pool of the context. *)
Definition released_individually (m : member) : bool :=
  match m with
  | descriptor_sets_0 | descriptor_sets_1 | compute_command_buffer_ => false
  | _ => true
  end.

(** A handle as [cleanup] treats it: passed on unless null. *)
Definition keep (h : handle) : list handle :=
  if negb (h =? VK_NULL_HANDLE) then [h] else [].

(** The handles a pipeline holds that [cleanup] passes to the device. *)
Definition live (p : t) : list handle :=
  filter (fun h => negb (h =? VK_NULL_HANDLE))
         (map (fun m => get m p) release_order).

(** The device after one successful creating call for [o]. *)
Definition made (o : object) (d : driver) : driver :=
  mkDriver (Pos.succ (next d)) (accepts d) (S (ncalls d))
           (log d ++ [Created o (Z.pos (next d))]).

(** The object and the device after a creating call that succeeded and
    whose handle went to [m]. *)
Definition grant (o : object) (m : member) (w : world) : world :=
  (set m (Z.pos (next (snd w))) (fst w), made o (snd w)).

Definition told (e : event) (w : world) : world := (fst w, emit e (snd w)).

(** The two descriptor sets come from one call. *)
Definition grant_sets (w : world) : world :=
  let d := snd w in
  (set descriptor_sets_1 (Z.pos (Pos.succ (next d)))
       (set descriptor_sets_0 (Z.pos (next d)) (fst w)),
   mkDriver (Pos.succ (Pos.succ (next d))) (accepts d) (S (ncalls d))
            (log d ++ [Created DescriptorSet (Z.pos (next d));
                       Created DescriptorSet (Z.pos (Pos.succ (next d)))])).

Definition written (slot : member) (w : world) : world :=
  told (DescriptorWrite (get slot (fst w)) 1 (get output_image_view_ (fst w)))
    (told (DescriptorWrite (get slot (fst w)) 0 (get input_image_view_ (fst w)))
       w).

(** The object and the device after an [init] that returned. *)
Definition initialised_from (W H : Z) (code : list Z) (w : world) : world :=
  let w := (mk W H (handles (fst w)), snd w) in
  let w := grant ImageView output_image_view_
             (grant ImageView input_image_view_
                (grant DeviceMemory output_image_memory_
                   (grant DeviceMemory input_image_memory_
                      (grant Image output_image_
                         (grant Image input_image_ w))))) in
  let w := grant DeviceMemory staging_buffer_memory_
             (grant Buffer staging_buffer_
                (told (BufferInfo (getStagingBufferSize (fst w))) w)) in
  let w := grant ShaderModule compute_shader_
             (told (ShaderCode (Z.of_nat (length code) * 4) code) w) in
  let w := grant DescriptorSetLayout descriptor_set_layout_ w in
  let w := grant PipelineLayout pipeline_layout_ w in
  let w := grant Pipeline compute_pipeline_ w in
  let w := grant DescriptorPool descriptor_pool_ w in
  let w := grant_sets w in
  let w := written descriptor_sets_1 (written descriptor_sets_0 w) in
  let w := grant CommandBuffer compute_command_buffer_ w in
  grant Fence compute_fence_ w.

(** [filled n0 c0 d0 W H ms w]: starting from a device whose next handle is
    [n0], the members [ms] of [w] hold, in this order, the handles
    [n0, n0+1, ...], these are the handles created since, nothing was
    destroyed, and the dimensions are [W] x [H]. *)
Definition filled (n0 : positive) (c0 d0 : list handle) (W H : Z)
           (ms : list member) (w : world) : Prop :=
  Z.pos (next (snd w)) = Z.pos n0 + Z.of_nat (length ms) /\
  map (fun m => get m (fst w)) ms
  = map (fun k => Z.pos n0 + k) (zrange 0 (length ms)) /\
  created (log (snd w)) = c0 ++ map (fun m => get m (fst w)) ms /\
  destroyed (log (snd w)) = d0 /\
  width_ (fst w) = W /\ height_ (fst w) = H.

(** The device after [if (m != VK_NULL_HANDLE) vkDestroy...(m)]. *)
Definition released (o : object) (m : member) (p : t) (d : driver) : driver :=
  if negb (get m p =? VK_NULL_HANDLE) then destroy o (get m p) d else d.


End Lifecycle.

(** Channel [c] (0 red, 1 green, 2 blue, 3 alpha) of pixel [(x, y)] of a
    frame of RGBA rows without padding. *)
Definition channel (f : Frame) (x y c : Z) : option Z :=
  byte_at f (4 * (y * width f + x) + c).

(** A step that writes through a cursor into a buffer. *)
Module Cursor.

(** [advances k c]: started inside a buffer with fewer than [k] cells left,
    [c] has no result; when it has one, the cursor moved by [k] and the
    buffer kept its length. *)
Definition advances (k : nat) (c : nat * list Z -> option (nat * list Z))
  : Prop :=
  forall ptr buf,
    ((ptr <= length buf)%nat -> (length buf < ptr + k)%nat ->
     c (ptr, buf) = None) /\
    (forall ptr' buf',
        c (ptr, buf) = Some (ptr', buf') ->
        ptr' = (ptr + k)%nat /\ length buf' = length buf).

End Cursor.

(** Packed YUYV bytes cut into groups of four. *)
Module Chunks.

Fixpoint groups_of (l : list Z) : list BT601.group :=
  match l with
  | y1 :: u :: y2 :: v :: rest => (y1, u, y2, v) :: groups_of rest
  | _ => []
  end.

(** The loop trips [yuyv2rgba] makes for [pixels] pixels from counter [i]. *)
Definition trips (i pixels : Z) : Z := (pixels - i + 1) / 2.

End Chunks.

(** Which handles a pipeline owns. *)
Module Ownership.
Import Vk ComputePipeline.

(** [owned d0 w]: every non-null member of the pipeline holds a handle the
    device created and has not handed out since, no two members hold the
    same one, and the device has released exactly [d0]. *)
Definition owned (d0 : list handle) (w : world) : Prop :=
  (forall m, get m (fst w) <> VK_NULL_HANDLE ->
             0 < get m (fst w) < Z.pos (next (snd w)) /\
             In (get m (fst w)) (created (log (snd w)))) /\
  (forall m1 m2, m1 <> m2 -> get m1 (fst w) <> VK_NULL_HANDLE ->
                 get m1 (fst w) <> get m2 (fst w)) /\
  destroyed (log (snd w)) = d0.

(** A member function keeps a property of the object and the device,
    however it ends. *)
Definition keeps (I : world -> Prop) {A : Type} (c : M A) : Prop :=
  forall w r w', I w -> c w = (r, w') -> I w'.

(** A device that refuses no creating call. *)
Definition never_refuses (d : driver) : Prop :=
  forall n, accepts d n = true.

(** On a device that never refuses, [c] returns a value satisfying [Q] and
    leaves such a device. *)
Definition succeeds {A : Type} (Q : A -> Prop) (c : M A) : Prop :=
  forall w, never_refuses (snd w) ->
            exists a w', c w = (Returns a, w') /\ Q a /\
                         never_refuses (snd w').

(** The descriptor updates a log records: set, binding, image view. *)
Fixpoint writes (l : list event) : list (handle * Z * handle) :=
  match l with
  | [] => []
  | DescriptorWrite s b v :: l' => (s, b, v) :: writes l'
  | _ :: l' => writes l'
  end.

End Ownership.

(** Concrete situations used to exercise the statements. *)
Module Scenario.
Import Vk Asset.

Definition shader_path : string := "shaders/pixelation.comp.spv".

(** A device that accepts every creating call. *)
Definition willing : driver := mkDriver 1 (fun _ => true) 0 [].

(** A file system holding a two-word shader binary. *)
Definition fs_aligned : files :=
  fun name => if String.eqb name shader_path
              then Some [3; 2; 35; 7; 0; 0; 1; 0] else None.

(** A file system whose shader file has five bytes. *)
Definition fs_unaligned : files :=
  fun name => if String.eqb name shader_path
              then Some [3; 2; 35; 7; 9] else None.


(** A 2x2 pipeline after a successful [init]. *)
Definition initialised : ComputePipeline.world :=
  snd (ComputePipeline.init fs_aligned 2 2 (ComputePipeline.new, willing)).

(** A capture device that adjusts every request to 2x2 and has one full
    frame (8 bytes of YUYV) ready, then a short one. *)
Definition camera : V4L2.os :=
  V4L2.mkOs (fun _ => 3) (0, 1) (fun _ _ => (0, (2, 2)))
            [V4L2.ReadData [128; 128; 128; 128; 255; 0; 255; 255];
             V4L2.ReadData [1; 2; 3]]
            [].

Definition webcam : WebcamGrabber.t := WebcamGrabber.new 4 4 "/dev/video0".

Definition blank : Frame := mkFrame 0 0 0 [].

(** The grabber and the system after [init] on that camera. *)
Definition opened : WebcamGrabber.t :=
  snd (fst (WebcamGrabber.init None webcam camera)).

Definition camera_on : V4L2.os := snd (WebcamGrabber.init None webcam camera).

(** The same camera delivering a frame in two pieces of 3 and 5 bytes. *)
Definition starved : V4L2.os :=
  V4L2.mkOs (fun _ => 3) (0, 1) (fun _ _ => (0, (2, 2)))
            [V4L2.ReadData [1; 2; 3]; V4L2.ReadData [4; 5; 6; 7; 8]]
            [].

(** Two packed groups: mid-grey, and the extreme [Y=255, U=0, V=255]. *)
Definition two_groups : list BT601.group :=
  [(128, 128, 128, 128); (255, 0, 255, 255)].

(** A device that refuses the third creating call (the first memory
    allocation). *)
Definition grudging : driver :=
  mkDriver 1 (fun n => negb (Nat.eqb n 2)) 0 [].

(** A system on which the capture device cannot be opened, and one whose
    device is no capture device. *)
Definition no_camera : V4L2.os :=
  V4L2.mkOs (fun _ => -1) (0, 1) (fun w h => (0, (w, h))) [] [].

Definition not_a_camera : V4L2.os :=
  V4L2.mkOs (fun _ => 3) (0, 2) (fun w h => (0, (w, h))) [] [].

(** A camera that keeps the requested 3x3 and has 18 bytes ready. *)
Definition odd_camera : V4L2.os :=
  V4L2.mkOs (fun _ => 3) (0, 1) (fun w h => (0, (w, h)))
            [V4L2.ReadData (repeat 7 18)] [].

Definition odd_webcam : WebcamGrabber.t := WebcamGrabber.new 3 3 "/dev/video0".

Definition odd_opened : WebcamGrabber.t :=
  snd (fst (WebcamGrabber.init None odd_webcam odd_camera)).

Definition odd_on : V4L2.os :=
  snd (WebcamGrabber.init None odd_webcam odd_camera).

(** A capture device that adjusts every request to 65536x65536 and has
    nothing ready to read, and a grabber that asks it for 1920x1080. *)
Definition huge_camera : V4L2.os :=
  V4L2.mkOs (fun _ => 3) (0, 1) (fun _ _ => (0, (65536, 65536))) [] [].

Definition hd_webcam : WebcamGrabber.t :=
  WebcamGrabber.new 1920 1080 "/dev/video0".

Definition huge_opened : WebcamGrabber.t :=
  snd (fst (WebcamGrabber.init None hd_webcam huge_camera)).

Definition huge_on : V4L2.os :=
  snd (WebcamGrabber.init None hd_webcam huge_camera).

End Scenario.

(* ================================================================== *)
(** * Part II: properties                                              *)
(* ================================================================== *)

(** ** Storage lemmas *)

Section Storage.

Lemma u32_small (z : Z) : 0 <= z < 2 ^ 32 -> u32 z = z.
Proof. intros H. unfold u32. now apply Z.mod_small. Qed.

Lemma u8_small (z : Z) : 0 <= z < 256 -> u8 z = z.
Proof. intros H. unfold u8. now apply Z.mod_small. Qed.

Lemma store_app (pre post : list Z) (old v : Z) :
  store (pre ++ old :: post) (length pre) v = Some (pre ++ v :: post).
Proof.
  induction pre as [|h pre IH]; simpl; [reflexivity|].
  now rewrite IH.
Qed.

Lemma resize_length (v : list Z) (n : nat) : length (resize v n) = n.
Proof.
  unfold resize. rewrite length_app, length_firstn, repeat_length. lia.
Qed.

Lemma zrange_length (i0 : Z) (n : nat) : length (zrange i0 n) = n.
Proof. revert i0; induction n; simpl; intros; [reflexivity|now rewrite IHn]. Qed.

Lemma zrange_nth (n : nat) : forall (i0 : Z) (k : nat),
    (k < n)%nat -> nth_error (zrange i0 n) k = Some (i0 + Z.of_nat k).
Proof.
  induction n as [|n IH]; intros i0 k Hk; [lia|].
  destruct k as [|k]; simpl.
  - f_equal; lia.
  - rewrite IH by lia. f_equal; lia.
Qed.

Lemma zrange_In (n : nat) : forall (i0 x : Z),
    In x (zrange i0 n) -> i0 <= x < i0 + Z.of_nat n.
Proof.
  induction n as [|n IH]; simpl; intros i0 x Hx; [tauto|].
  destruct Hx as [<-|Hx]; [lia|]. apply IH in Hx. lia.
Qed.

(** A loop whose body overwrites [k] consecutive cells at the cursor with
    [f i] writes the concatenation of the [f i]. *)
Lemma for_upto_fill (k : nat) (f : Z -> list Z)
      (body : Z -> nat * list Z -> option (nat * list Z))
      (P : Z -> Prop) :
  (forall i, P i -> length (f i) = k) ->
  (forall i pre old post, P i -> length old = k ->
      body i (length pre, pre ++ old ++ post)
      = Some ((length pre + k)%nat, pre ++ f i ++ post)) ->
  forall (n : nat) (i0 : Z) (pre old post : list Z),
    (forall i, i0 <= i < i0 + Z.of_nat n -> P i) ->
    length old = (n * k)%nat ->
    for_upto n i0 body (length pre, pre ++ old ++ post)
    = Some ((length pre + n * k)%nat,
            pre ++ flat_map f (zrange i0 n) ++ post).
Proof.
  intros Hlen Hbody.
  induction n as [|n IH]; intros i0 pre old post HP Hold.
  - destruct old; [|discriminate]. simpl.
    now rewrite Nat.add_0_r.
  - simpl in Hold.
    assert (Hsplit : old = firstn k old ++ skipn k old)
      by (symmetry; apply firstn_skipn).
    assert (Hk : length (firstn k old) = k)
      by (rewrite length_firstn; lia).
    assert (Hrest : length (skipn k old) = (n * k)%nat)
      by (rewrite length_skipn; lia).
    assert (Pi0 : P i0) by (apply HP; lia).
    simpl. rewrite Hsplit, <- app_assoc.
    rewrite (Hbody i0 pre _ _ Pi0 Hk).
    replace (length pre + k)%nat with (length (pre ++ f i0))
      by (rewrite length_app, Hlen by assumption; reflexivity).
    rewrite (app_assoc pre (f i0)).
    rewrite IH; [|intros; apply HP; lia|assumption].
    rewrite length_app, Hlen by assumption.
    f_equal. f_equal; [lia|]. now rewrite <- !app_assoc.
Qed.

End Storage.

(** ** The test pattern of [FrameGrabber::grabFrame] *)

Module TestPattern.
Import FrameGrabber Dimensions.

Lemma pixel_length (W H y x : Z) : length (pixel W H y x) = 4%nat.
Proof. reflexivity. Qed.

Lemma store_off (pre mid post : list Z) (old v : Z) :
  store (pre ++ mid ++ old :: post) (length pre + length mid) v
  = Some (pre ++ mid ++ v :: post).
Proof.
  rewrite app_assoc, <- length_app, store_app, <- app_assoc. reflexivity.
Qed.

Lemma store_1 (pre post : list Z) (a old v : Z) :
  store (pre ++ a :: old :: post) (length pre + 1) v
  = Some (pre ++ a :: v :: post).
Proof. apply (store_off pre [a]). Qed.

Lemma store_2 (pre post : list Z) (a b old v : Z) :
  store (pre ++ a :: b :: old :: post) (length pre + 2) v
  = Some (pre ++ a :: b :: v :: post).
Proof. apply (store_off pre [a; b]). Qed.

Lemma store_3 (pre post : list Z) (a b c old v : Z) :
  store (pre ++ a :: b :: c :: old :: post) (length pre + 3) v
  = Some (pre ++ a :: b :: c :: v :: post).
Proof. apply (store_off pre [a; b; c]). Qed.

(** One execution of the loop body overwrites the four cells at the cursor. *)
Lemma put_pixel_spec (W H y x : Z) (pre old post : list Z) :
  W <> 0 -> H <> 0 -> u32 (W + H) <> 0 ->
  length old = 4%nat ->
  put_pixel W H y x (length pre, pre ++ old ++ post)
  = Some ((length pre + 4)%nat, pre ++ pixel W H y x ++ post).
Proof.
  intros HW HH HWH Hold.
  destruct old as [|o0 [|o1 [|o2 [|o3 [|? ?]]]]]; try discriminate.
  unfold put_pixel, udiv.
  rewrite (proj2 (Z.eqb_neq W 0) HW), (proj2 (Z.eqb_neq H 0) HH),
    (proj2 (Z.eqb_neq _ 0) HWH).
  cbn [app].
  rewrite store_app, store_1, store_2, store_3.
  reflexivity.
Qed.

Lemma row_length (W H y : Z) : length (row W H y) = (Z.to_nat W * 4)%nat.
Proof.
  unfold row. generalize 0 at 1. induction (Z.to_nat W) as [|n IH]; intros i0.
  - reflexivity.
  - cbn [zrange flat_map]. rewrite length_app, IH, pixel_length. lia.
Qed.

(** The inner loop writes one row. *)
Lemma inner_loop_spec (W H y : Z) (pre old post : list Z) :
  H <> 0 -> u32 (W + H) <> 0 ->
  length old = (Z.to_nat W * 4)%nat ->
  for_upto (Z.to_nat W) 0 (put_pixel W H y) (length pre, pre ++ old ++ post)
  = Some ((length pre + Z.to_nat W * 4)%nat, pre ++ row W H y ++ post).
Proof.
  intros HH HWH Hold.
  destruct (Z.eq_dec W 0) as [->|HW].
  - simpl in *. destruct old; [|discriminate].
    now rewrite Nat.add_0_r.
  - apply (for_upto_fill 4 (pixel W H y) (put_pixel W H y) (fun _ => True));
      auto using pixel_length.
    intros i p o q _ Ho. now apply put_pixel_spec.
Qed.

(** The two nested loops write the whole pattern. *)
Lemma outer_loop_spec (W H : Z) (old : list Z) :
  u32 (W + H) <> 0 ->
  length old = (Z.to_nat H * (Z.to_nat W * 4))%nat ->
  for_upto (Z.to_nat H) 0
    (fun y => for_upto (Z.to_nat W) 0 (put_pixel W H y)) (0%nat, old)
  = Some ((Z.to_nat H * (Z.to_nat W * 4))%nat, pattern W H).
Proof.
  intros HWH Hold.
  destruct (Z.eq_dec H 0) as [->|HH].
  - simpl in *. now destruct old.
  - pose proof (for_upto_fill (Z.to_nat W * 4) (row W H)
                  (fun y => for_upto (Z.to_nat W) 0 (put_pixel W H y))
                  (fun _ => True)) as L.
    specialize (L (fun y _ => row_length W H y)).
    specialize (L (fun y p o q _ Ho => inner_loop_spec W H y p o q HH HWH Ho)).
    specialize (L (Z.to_nat H) 0 [] old [] (fun _ _ => I) Hold).
    rewrite app_nil_r in L. cbn [app length Nat.add] in L.
    rewrite L, app_nil_r. reflexivity.
Qed.

Lemma fits_divisor (W H : Z) : fits W H -> W * H <> 0 -> u32 (W + H) <> 0.
Proof.
  intros (HW & HH & _ & HS) HP.
  rewrite u32_small by lia. nia.
Qed.

(** [grabFrame] always succeeds on such dimensions, and the frame it fills
    is the pattern, whatever the frame held before and whatever the frame
    counter is. *)
Lemma grabFrame_pattern (g : t) (out_frame : Frame) :
  fits (width_ g) (height_ g) ->
  grabFrame g out_frame
  = Some (true,
          mk (width_ g) (height_ g) (u32 (frame_count_ g + 1)),
          mkFrame (width_ g) (height_ g) (u32 (width_ g * 4))
                  (pattern (width_ g) (height_ g))).
Proof.
  intros F. pose proof F as (HW & HH & HP & HS).
  unfold grabFrame.
  set (W := width_ g) in *. set (H := height_ g) in *.
  assert (Hlen : length (resize (data out_frame) (Z.to_nat (u32 (W * H) * 4)))
                 = (Z.to_nat H * (Z.to_nat W * 4))%nat).
  { rewrite resize_length, u32_small by nia.
    rewrite !Z2Nat.inj_mul by nia. change (Z.to_nat 4) with 4%nat. lia. }
  destruct (Z.eq_dec (W * H) 0) as [Hz|Hnz].
  - (* an empty frame: no pixel is written *)
    assert (E : resize (data out_frame) (Z.to_nat (u32 (W * H) * 4)) = []).
    { apply length_zero_iff_nil. rewrite resize_length, Hz. reflexivity. }
    rewrite E.
    assert (Hp : pattern W H = []).
    { unfold pattern.
      apply Z.mul_eq_0 in Hz. destruct Hz as [Hz|Hz].
      - unfold row. rewrite Hz. simpl.
        induction (zrange 0 (Z.to_nat H)); [reflexivity|assumption].
      - now rewrite Hz. }
    rewrite Hp.
    apply Z.mul_eq_0 in Hz. destruct Hz as [Hz|Hz].
    + rewrite Hz. simpl.
      assert (L : forall n i, for_upto n i (fun _ : Z => @Some (nat * list Z))
                                (0%nat, []) = Some (0%nat, []))
        by (induction n; intros; simpl; auto).
      now rewrite L.
    + now rewrite Hz.
  - rewrite (outer_loop_spec W H _ (fits_divisor W H F Hnz) Hlen).
    reflexivity.
Qed.

(** Indexing a concatenation of chunks of equal length. *)
Lemma flat_map_nth {A : Type} (f : A -> list Z) (k : nat) :
  (forall a, length (f a) = k) ->
  forall (l : list A) (i c : nat) (a : A),
    nth_error l i = Some a -> (c < k)%nat ->
    nth_error (flat_map f l) (i * k + c) = nth_error (f a) c.
Proof.
  intros Hk. induction l as [|a0 l IH]; intros i c a Hi Hc.
  - destruct i; discriminate.
  - destruct i as [|i]; cbn [flat_map].
    + injection Hi as ->. cbn [Nat.mul Nat.add].
      apply nth_error_app1. now rewrite Hk.
    + cbn [nth_error] in Hi.
      rewrite nth_error_app2 by (rewrite Hk; lia).
      rewrite Hk.
      replace (Datatypes.S i * k + c - k)%nat with (i * k + c)%nat by lia.
      now apply IH.
Qed.

(** Channel [c] of pixel [(x, y)] sits at byte offset [4 * (y * W + x) + c]
    of the pattern. *)
Lemma pattern_byte (W H x y c : Z) :
  0 <= x < W -> 0 <= y < H -> 0 <= c < 4 ->
  nth_error (pattern W H) (Z.to_nat (4 * (y * W + x) + c))
  = nth_error (pixel W H y x) (Z.to_nat c).
Proof.
  intros Hx Hy Hc.
  replace (Z.to_nat (4 * (y * W + x) + c))
    with (Z.to_nat y * (Z.to_nat W * 4) + (Z.to_nat x * 4 + Z.to_nat c))%nat
    by nia.
  unfold pattern.
  rewrite (flat_map_nth (row W H) (Z.to_nat W * 4) (row_length W H)
             _ _ _ y).
  - unfold row.
    apply (flat_map_nth (pixel W H y) 4 (pixel_length W H y) _ _ _ x).
    + rewrite zrange_nth by lia. f_equal. lia.
    + lia.
  - rewrite zrange_nth by lia. f_equal. lia.
  - nia.
Qed.

Lemma exact_dims_fits (W H : Z) : exact_dims W H -> fits W H.
Proof. unfold exact_dims, fits. lia. Qed.

(** On such dimensions the loop body computes the mathematical quotients. *)
Lemma pixel_exact (W H x y : Z) :
  exact_dims W H -> 0 <= x < W -> 0 <= y < H ->
  pixel W H y x
  = [x * 255 / W; y * 255 / H; (x + y) * 255 / (W + H); 255].
Proof.
  intros (HW & HH & HP & HS) Hx Hy. unfold pixel.
  rewrite (u32_small (x + y)) by lia.
  rewrite !u32_small by lia.
  assert (0 <= x * 255 / W < 255)
    by (split; [apply Z.div_pos; lia | apply Z.div_lt_upper_bound; lia]).
  assert (0 <= y * 255 / H < 255)
    by (split; [apply Z.div_pos; lia | apply Z.div_lt_upper_bound; lia]).
  assert (0 <= (x + y) * 255 / (W + H) < 255)
    by (split; [apply Z.div_pos; lia | apply Z.div_lt_upper_bound; lia]).
  rewrite !u8_small by lia. reflexivity.
Qed.

(** The gradient of the specification, on dimensions without wrap-around:
    every call returns a frame, and channel by channel it holds the
    quotients rounded down. *)
Lemma grabFrame_gradient (g : t) (out_frame : Frame) (x y : Z) :
  exact_dims (width_ g) (height_ g) ->
  0 <= x < width_ g -> 0 <= y < height_ g ->
  exists g' f,
    grabFrame g out_frame = Some (true, g', f) /\
    let o := 4 * (y * width_ g + x) in
    byte_at f o = Some (x * 255 / width_ g) /\
    byte_at f (o + 1) = Some (y * 255 / height_ g) /\
    byte_at f (o + 2) = Some ((x + y) * 255 / (width_ g + height_ g)) /\
    byte_at f (o + 3) = Some 255.
Proof.
  intros E Hx Hy.
  eexists _, _. split; [apply grabFrame_pattern, exact_dims_fits, E|].
  unfold byte_at; cbn [data].
  rewrite <- (Z.add_0_r (4 * (y * width_ g + x))) at 1.
  rewrite !pattern_byte by lia.
  rewrite (pixel_exact _ _ _ _ E Hx Hy).
  repeat split; reflexivity.
Qed.

(** Neither the frame counter nor the previous contents of the caller's
    frame influence the frame that is produced. *)
Lemma grabFrame_reproducible (g1 g2 : t) (out1 out2 : Frame) :
  width_ g1 = width_ g2 -> height_ g1 = height_ g2 ->
  fits (width_ g1) (height_ g1) ->
  exists g1' g2' f,
    grabFrame g1 out1 = Some (true, g1', f) /\
    grabFrame g2 out2 = Some (true, g2', f).
Proof.
  intros EW EH F.
  eexists _, _, _. split.
  - apply grabFrame_pattern, F.
  - rewrite (grabFrame_pattern g2 out2) by (rewrite <- EW, <- EH; exact F).
    now rewrite EW, EH.
Qed.

(** C1, on a frame 20,000,000 pixels wide and one row high: the call
    returns a frame, and the red channel of pixel (17,000,000, 0) is 2,
    because [x * 255] is reduced modulo 2^32 before the division; the
    quotient of the specification is 216. *)
Theorem grabFrame_red_wraps_on_wide_frame :
  exists g' f,
    grabFrame (mk 20000000 1 0) (mkFrame 0 0 0 []) = Some (true, g', f) /\
    byte_at f (4 * (0 * 20000000 + 17000000) + 0) = Some 2 /\
    17000000 * 255 / 20000000 = 216.
Proof.
  eexists _, _. split; [apply grabFrame_pattern; cbn; unfold fits; lia|].
  split; [|reflexivity].
  unfold byte_at; cbn [data width_ height_].
  rewrite pattern_byte by lia.
  reflexivity.
Qed.

End TestPattern.

(** ** YUYV to RGBA *)

Module Conversion.
Import WebcamGrabber BT601.

Lemma clamp_range (v : Z) : 0 <= clamp v <= 255.
Proof. unfold clamp. lia. Qed.

Lemma clamp_spec_range (v : Z) : 0 <= clamp_spec v <= 255.
Proof.
  unfold clamp_spec.
  destruct (Z.ltb_spec v 0); [lia|].
  destruct (Z.ltb_spec 255 v); lia.
Qed.

(** [max(0, min(255, x >> 8))] stored in a [uint8_t] is the clamped
    quotient. *)
Lemma channel_refines (x : Z) :
  u8 (clamp (Z.shiftr x 8)) = clamp_spec (x / 2 ^ 8).
Proof.
  rewrite Z.shiftr_div_pow2 by lia.
  pose proof (clamp_range (x / 2 ^ 8)) as R.
  unfold u8. rewrite Z.mod_small by lia.
  unfold clamp, clamp_spec.
  destruct (Z.ltb_spec (x / 2 ^ 8) 0); [lia|].
  destruct (Z.ltb_spec 255 (x / 2 ^ 8)); lia.
Qed.

Lemma i32_small (z : Z) : - 2 ^ 31 <= z < 2 ^ 31 -> i32 z = z.
Proof. intros H. unfold i32. rewrite Z.mod_small; lia. Qed.

(** The [int] intermediates of the loop body do not overflow on bytes. *)
Lemma int_exact (y u v : Z) :
  is_byte y -> is_byte u -> is_byte v ->
  i32 (298 * (y - 16) + 409 * (v - 128) + 128)
  = 298 * (y - 16) + 409 * (v - 128) + 128 /\
  i32 (298 * (y - 16) - 100 * (u - 128) - 208 * (v - 128) + 128)
  = 298 * (y - 16) - 100 * (u - 128) - 208 * (v - 128) + 128 /\
  i32 (298 * (y - 16) + 516 * (u - 128) + 128)
  = 298 * (y - 16) + 516 * (u - 128) + 128.
Proof. unfold is_byte. intros. repeat split; apply i32_small; lia. Qed.

(** One trip through the loop. *)
Lemma yuyv2rgba_from_step (i pixels : Z) (q : group) (yuyv old rgba : list Z) :
  bytes q -> i < pixels -> length old = 8%nat ->
  yuyv2rgba_from i pixels (packed q ++ yuyv) (old ++ rgba)
  = option_map (app (pixels_of q))
               (yuyv2rgba_from (u32 (i + 2)) pixels yuyv rgba).
Proof.
  intros Hq Hi Hold.
  destruct q as [[[y1 u] y2] v]. destruct Hq as (B1 & Bu & B2 & Bv).
  destruct old as [|o0 [|o1 [|o2 [|o3 [|o4 [|o5 [|o6 [|o7 [|? ?]]]]]]]]];
    try discriminate.
  cbn [packed app yuyv2rgba_from].
  rewrite (proj2 (Z.ltb_lt i pixels) Hi).
  destruct (int_exact y1 u v B1 Bu Bv) as (-> & -> & ->).
  destruct (int_exact y2 u v B2 Bu Bv) as (-> & -> & ->).
  rewrite !channel_refines.
  destruct (yuyv2rgba_from (u32 (i + 2)) pixels yuyv rgba); reflexivity.
Qed.

Lemma yuyv2rgba_from_done (i pixels : Z) (yuyv rgba : list Z) :
  pixels <= i -> yuyv2rgba_from i pixels yuyv rgba = Some rgba.
Proof.
  intros Hi. destruct yuyv; cbn [yuyv2rgba_from];
    now rewrite (proj2 (Z.ltb_ge i pixels) Hi).
Qed.

Lemma pixels_of_length (q : group) : length (pixels_of q) = 8%nat.
Proof. now destruct q as [[[? ?] ?] ?]. Qed.

Lemma yuyv2rgba_from_groups (groups : list group) :
  Forall bytes groups ->
  forall (i pixels : Z) (rgba : list Z),
    0 <= i -> pixels < 2 ^ 32 ->
    i + 2 * Z.of_nat (length groups) = pixels ->
    (8 * length groups <= length rgba)%nat ->
    yuyv2rgba_from i pixels (flat_map packed groups) rgba
    = Some (flat_map pixels_of groups ++ skipn (8 * length groups) rgba).
Proof.
  induction 1 as [|q groups Hq Hgs IH]; intros i pixels rgba Hi Hp Hn Hr.
  - cbn [flat_map length] in *. apply yuyv2rgba_from_done. lia.
  - cbn [flat_map length] in *.
    rewrite <- (firstn_skipn 8 rgba) at 1.
    rewrite yuyv2rgba_from_step by (rewrite ?length_firstn; auto; lia).
    rewrite u32_small by lia.
    rewrite IH by (rewrite ?length_skipn; lia).
    cbn [option_map]. rewrite <- app_assoc, skipn_skipn.
    do 4 f_equal. lia.
Qed.

Lemma pixels_of_range (q : group) :
  Forall (fun c => 0 <= c <= 255) (pixels_of q).
Proof.
  destruct q as [[[y1 u] y2] v]. unfold pixels_of, rgba, red, green, blue.
  repeat constructor; try apply clamp_spec_range; lia.
Qed.

(** C2.  On a buffer of packed groups of bytes, [yuyv2rgba] returns, and
    what it leaves in the output buffer is, group by group, the two BT.601
    pixels of [(Y1,U,V)] and [(Y2,U,V)] as the specification computes them;
    every channel lies in [0, 255] and alpha is 255. *)
Theorem yuyv2rgba_is_bt601 (groups : list group) (rgba : list Z) :
  Forall bytes groups ->
  2 * Z.of_nat (length groups) < 2 ^ 32 ->
  length rgba = (8 * length groups)%nat ->
  yuyv2rgba (flat_map packed groups) rgba (2 * Z.of_nat (length groups))
  = Some (flat_map pixels_of groups) /\
  Forall (fun c => 0 <= c <= 255) (flat_map pixels_of groups) /\
  forall q, In q groups ->
    nth_error (pixels_of q) 3 = Some 255 /\
    nth_error (pixels_of q) 7 = Some 255.
Proof.
  intros Hb Hp Hr. split; [|split].
  - unfold yuyv2rgba.
    rewrite (yuyv2rgba_from_groups groups Hb 0 _ rgba) by lia.
    rewrite <- Hr, skipn_all, app_nil_r. reflexivity.
  - apply Forall_flat_map, Forall_forall. intros q _. apply pixels_of_range.
  - intros [[[y1 u] y2] v] _. split; reflexivity.
Qed.

(** Mid-grey and the extreme group [Y=255, U=0, V=255], converted. *)
Lemma yuyv2rgba_is_bt601_witness :
  WebcamGrabber.yuyv2rgba [128; 128; 128; 128; 255; 0; 255; 255]
                          (repeat 0 16) 4
  = Some [130; 130; 130; 255; 130; 130; 130; 255;
          255; 225; 20; 255; 255; 225; 20; 255].
Proof.
  apply (yuyv2rgba_is_bt601 Scenario.two_groups (repeat 0 16)).
  - repeat constructor; vm_compute; discriminate.
  - vm_compute. reflexivity.
  - reflexivity.
Defined.

End Conversion.

(** C3 as stated: mid-grey does not come out as [(112,115,112,255)]. *)
Lemma yuyv2rgba_mid_grey_is_not_112_115_112 :
  WebcamGrabber.yuyv2rgba [128; 128; 128; 128] (repeat 0 8) 2
  <> Some [112; 115; 112; 255; 112; 115; 112; 255].
Proof. vm_compute. discriminate. Qed.

(** C3, amended: for the group [Y1=128, U=128, Y2=128, V=128] both output
    pixels are [(130,130,130,255)], in the code and under the formula of the
    specification alike ([(298*112 + 128) >> 8 = 130]). *)
Theorem yuyv2rgba_mid_grey_is_130 :
  WebcamGrabber.yuyv2rgba [128; 128; 128; 128] (repeat 0 8) 2
  = Some [130; 130; 130; 255; 130; 130; 130; 255] /\
  BT601.rgba 128 128 128 = [130; 130; 130; 255].
Proof. split; reflexivity. Qed.

(** ** Acquisition from the capture device *)

Module Capture.
Import V4L2 WebcamGrabber Acquisition.

Lemma yuyv_size_nonneg (g : t) : 0 <= yuyv_size g.
Proof. unfold yuyv_size, u32. apply Z.mod_pos_bound. lia. Qed.

(** The read is logged once, and consumes one chunk. *)
Lemma after_read_once (g : t) (o : os) :
  calls (after_read g o) = calls o ++ [SysRead (fd_ g) (yuyv_size g)] /\
  pending (after_read g o) = tl (pending o).
Proof.
  unfold after_read, the_read, sys_read.
  destruct (pending o) as [|[|bs] rest]; split; reflexivity.
Qed.

Lemma bytes_read_error (g : t) (o : os) (rest : list chunk) :
  pending o = ReadError :: rest -> bytes_read g o = -1.
Proof. intros E. unfold bytes_read, the_read, sys_read. now rewrite E. Qed.

Lemma bytes_read_short (g : t) (o : os) (bs : list Z) (rest : list chunk) :
  pending o = ReadData bs :: rest ->
  Z.of_nat (length bs) < yuyv_size g ->
  bytes_read g o = Z.of_nat (length bs).
Proof.
  intros E Hs. unfold bytes_read, the_read, sys_read. rewrite E.
  cbn [fst]. f_equal. lia.
Qed.

Lemma grabFrame_closed (g : t) (out : Frame) (o : os) :
  fd_ g < 0 -> grabFrame g out o = Some (false, g, out, o).
Proof.
  intros H. unfold grabFrame. now rewrite (proj2 (Z.ltb_lt _ _) H).
Qed.

Lemma grabFrame_mismatch (g : t) (out : Frame) (o : os) :
  0 <= fd_ g -> bytes_read g o <> yuyv_size g ->
  grabFrame g out o = Some (false, g, out, after_read g o).
Proof.
  intros Hfd Hn. unfold grabFrame.
  rewrite (proj2 (Z.ltb_ge _ _) Hfd).
  unfold bytes_read, after_read, the_read, yuyv_size in *.
  destruct (sys_read _ _ _ o) as [[n buf] o1]. cbn [fst snd] in *.
  now rewrite (proj2 (Z.eqb_neq _ _) Hn).
Qed.

(** Every way [grabFrame] can end. *)
Lemma grabFrame_inv (g g' : t) (out f : Frame) (o o' : os) (b : bool) :
  grabFrame g out o = Some (b, g', f, o') ->
  (b = false /\ g' = g /\ f = out /\
   ((fd_ g < 0 /\ o' = o) \/
    (0 <= fd_ g /\ bytes_read g o <> yuyv_size g /\ o' = after_read g o)))
  \/
  (b = true /\ 0 <= fd_ g /\ bytes_read g o = yuyv_size g /\
   o' = after_read g o /\
   yuyv2rgba (snd (fst (the_read g o))) (buffer_ g)
             (u32 (width_ g * height_ g)) = Some (buffer_ g') /\
   g' = mk (width_ g) (height_ g) (u32 (frame_count_ g + 1)) (fd_ g)
           (buffer_ g') (device_ g) /\
   f = mkFrame (width_ g) (height_ g) (u32 (width_ g * 4)) (buffer_ g')).
Proof.
  unfold grabFrame.
  destruct (Z.ltb_spec (fd_ g) 0) as [Hfd|Hfd].
  - intros [= <- <- <- <-]. left. repeat split. left. split; [assumption|reflexivity].
  - unfold bytes_read, after_read, the_read, yuyv_size.
    destruct (sys_read _ _ _ o) as [[n buf] o1]. cbn [fst snd].
    destruct (Z.eqb_spec n (u32 (u32 (width_ g * height_ g) * 2))) as [E|E];
      cbn [negb].
    + destruct (yuyv2rgba _ _ _) as [rgba|]; [|discriminate].
      intros [= <- <- <- <-]. right. cbn. repeat split; assumption.
    + intros [= <- <- <- <-]. left. repeat split. right. repeat split; assumption.
Qed.

(** What holds on every input.  With the device open, one acquisition
    issues exactly one [read], for the size as the code forms it, in
    [uint32_t], which is [width_ * height_ * 2] whenever that fits 32
    bits, whatever way the call ends; if the count the read returns
    differs from this size (a read error, a short read), the call returns
    false with the grabber exactly as it was: nothing is retried and
    nothing is kept. *)
Theorem grabFrame_reads_once_and_fails_on_mismatch
        (g : t) (out : Frame) (o : os) :
  0 <= fd_ g ->
  calls (after_read g o) = calls o ++ [SysRead (fd_ g) (yuyv_size g)] /\
  pending (after_read g o) = tl (pending o) /\
  (0 <= width_ g -> 0 <= height_ g -> width_ g * height_ g * 2 < 2 ^ 32 ->
   yuyv_size g = width_ g * height_ g * 2) /\
  (forall b g' f o',
      grabFrame g out o = Some (b, g', f, o') -> o' = after_read g o) /\
  (bytes_read g o <> yuyv_size g ->
   grabFrame g out o = Some (false, g, out, after_read g o)) /\
  (forall rest, pending o = ReadError :: rest ->
                grabFrame g out o = Some (false, g, out, after_read g o)) /\
  (forall bs rest, pending o = ReadData bs :: rest ->
                   Z.of_nat (length bs) < yuyv_size g ->
                   grabFrame g out o = Some (false, g, out, after_read g o)).
Proof.
  intros Hfd.
  destruct (after_read_once g o) as [Hc Hp].
  repeat split; try assumption.
  - intros HW HH Hs. unfold yuyv_size.
    assert (0 <= width_ g * height_ g) by (apply Z.mul_nonneg_nonneg; lia).
    rewrite (u32_small (width_ g * height_ g)) by lia.
    apply u32_small. lia.
  - intros b g' f o' E. apply grabFrame_inv in E.
    destruct E as [(_ & _ & _ & [[? _]|(_ & _ & ->)])|(_ & _ & _ & -> & _)];
      [lia|reflexivity|reflexivity].
  - now apply grabFrame_mismatch.
  - intros rest E. apply grabFrame_mismatch; [assumption|].
    rewrite (bytes_read_error g o rest E). pose proof (yuyv_size_nonneg g). lia.
  - intros bs rest E Hs. apply grabFrame_mismatch; [assumption|].
    rewrite (bytes_read_short g o bs rest E Hs). lia.
Qed.

(** A read that finds three of the eight bytes of a 2x2 frame. *)
Lemma grabFrame_reads_once_and_fails_on_mismatch_witness :
  grabFrame Scenario.opened Scenario.blank Scenario.starved
  = Some (false, Scenario.opened, Scenario.blank,
          after_read Scenario.opened Scenario.starved) /\
  calls (after_read Scenario.opened Scenario.starved)
  = [SysRead 3 8].
Proof.
  assert (H : 0 <= fd_ Scenario.opened) by (vm_compute; discriminate).
  destruct (grabFrame_reads_once_and_fails_on_mismatch
              Scenario.opened Scenario.blank Scenario.starved H)
    as (Hc & _ & _ & _ & Hm & _).
  split.
  - apply Hm. vm_compute. discriminate.
  - exact Hc.
Defined.

(** C7, on a grabber that holds the resolution 65536 x 65536 a device
    answered: [width_ * height_ * 2] is 2^33 in exact arithmetic and 0 in
    [uint32_t], so the one read asks for 0 bytes; it returns 0, which
    differs from [width * height * 2] and yet matches the wrapped size,
    and [grabFrame] returns true with a frame of no bytes instead of
    returning false. *)
Theorem grabFrame_accepts_an_empty_read_on_wrapped_size :
  let g := mk 65536 65536 0 3 [] "/dev/video0" in
  let o := Scenario.huge_on in
  init None Scenario.hd_webcam Scenario.huge_camera = (Returns tt, g, o) /\
  width_ g * height_ g * 2 = 8589934592 /\
  calls (after_read g o) = calls o ++ [SysRead 3 0] /\
  bytes_read g o = 0 /\
  bytes_read g o <> width_ g * height_ g * 2 /\
  grabFrame g Scenario.blank o
  = Some (true, mk 65536 65536 1 3 [] "/dev/video0",
          mkFrame 65536 65536 262144 [], after_read g o).
Proof.
  cbv zeta. split; [vm_compute; reflexivity|].
  split; [reflexivity|].
  split; [vm_compute; reflexivity|].
  split; [vm_compute; reflexivity|].
  split; [vm_compute; discriminate|].
  vm_compute. reflexivity.
Qed.

(** The five bytes of the second read do not complete the three of the
    first: the second call fails as well. *)
Example partial_reads_are_not_assembled :
  let o1 := after_read Scenario.opened Scenario.starved in
  grabFrame Scenario.opened Scenario.blank Scenario.starved
  = Some (false, Scenario.opened, Scenario.blank, o1) /\
  grabFrame Scenario.opened Scenario.blank o1
  = Some (false, Scenario.opened, Scenario.blank,
          after_read Scenario.opened o1) /\
  pending (after_read Scenario.opened o1) = [].
Proof. vm_compute. repeat split. Qed.

(** C10.  When [grabFrame] fails, because the device is not open or because
    the byte count of the read does not match, it returns false and the
    caller's frame is untouched; the frame is written only by a call that
    returns true, after the read matched and the conversion completed. *)
Theorem grabFrame_failure_leaves_out_frame (g : t) (out : Frame) (o : os) :
  (fd_ g < 0 -> grabFrame g out o = Some (false, g, out, o)) /\
  (0 <= fd_ g -> bytes_read g o <> yuyv_size g ->
   grabFrame g out o = Some (false, g, out, after_read g o)) /\
  (forall g' f o', grabFrame g out o = Some (false, g', f, o') -> f = out) /\
  (forall g' f o',
      grabFrame g out o = Some (true, g', f, o') ->
      0 <= fd_ g /\ bytes_read g o = yuyv_size g /\
      yuyv2rgba (snd (fst (the_read g o))) (buffer_ g)
                (u32 (width_ g * height_ g)) = Some (data f) /\
      f = mkFrame (width_ g) (height_ g) (u32 (width_ g * 4)) (buffer_ g')).
Proof.
  repeat split.
  - apply grabFrame_closed.
  - apply grabFrame_mismatch.
  - intros g' f o' E. apply grabFrame_inv in E.
    destruct E as [(_ & _ & -> & _)|(? & _)]; [reflexivity|discriminate].
  - apply grabFrame_inv in H.
    destruct H as [(? & _)|(_ & ? & _)]; [discriminate|assumption].
  - apply grabFrame_inv in H.
    destruct H as [(? & _)|(_ & _ & ? & _)]; [discriminate|assumption].
  - apply grabFrame_inv in H.
    destruct H as [(? & _)|(_ & _ & _ & _ & Hc & _ & ->)];
      [discriminate|exact Hc].
  - apply grabFrame_inv in H.
    destruct H as [(? & _)|(_ & _ & _ & _ & _ & _ & ->)];
      [discriminate|reflexivity].
Qed.

(** A grabber that was never opened, and an opened one on a short read. *)
Lemma grabFrame_failure_leaves_out_frame_witness :
  grabFrame Scenario.webcam Scenario.blank Scenario.camera
  = Some (false, Scenario.webcam, Scenario.blank, Scenario.camera) /\
  grabFrame Scenario.opened Scenario.blank Scenario.starved
  = Some (false, Scenario.opened, Scenario.blank,
          after_read Scenario.opened Scenario.starved).
Proof.
  split.
  - apply (proj1 (grabFrame_failure_leaves_out_frame
                    Scenario.webcam Scenario.blank Scenario.camera)).
    vm_compute. reflexivity.
  - apply (proj1 (proj2 (grabFrame_failure_leaves_out_frame
                           Scenario.opened Scenario.blank Scenario.starved))).
    + vm_compute. discriminate.
    + vm_compute. discriminate.
Defined.

End Capture.

(** ** Resolution negotiation *)

Module Negotiation.
Import V4L2 WebcamGrabber Acquisition.

(** The conversion writes in place: the output buffer keeps its length. *)
Lemma yuyv2rgba_from_length (n : nat) :
  forall (yuyv rgba r : list Z) (i pixels : Z),
    (length yuyv <= n)%nat ->
    yuyv2rgba_from i pixels yuyv rgba = Some r -> length r = length rgba.
Proof.
  induction n as [|n IH]; intros yuyv rgba r i pixels Hn.
  - destruct yuyv; [|simpl in Hn; lia].
    cbn [yuyv2rgba_from]. destruct (i <? pixels); [discriminate|].
    now intros [= ->].
  - destruct yuyv as [|y1 [|u [|y2 [|v yuyv']]]];
      cbn [yuyv2rgba_from]; destruct (i <? pixels);
      try discriminate; try (now intros [= ->]).
    destruct rgba as [|o0 [|o1 [|o2 [|o3 [|o4 [|o5 [|o6 [|o7 rgba']]]]]]]];
      try discriminate.
    destruct (yuyv2rgba_from (u32 (i + 2)) pixels yuyv' rgba') as [rest|] eqn:E;
      [|discriminate].
    intros [= <-]. apply IH in E; [|simpl in Hn; lia].
    simpl. now rewrite E.
Qed.

Lemma yuyv2rgba_length (yuyv rgba r : list Z) (pixels : Z) :
  yuyv2rgba yuyv rgba pixels = Some r -> length r = length rgba.
Proof. apply (yuyv2rgba_from_length (length yuyv)). reflexivity. Qed.

(** A call of [grabFrame] changes neither the dimensions nor the size of the
    conversion buffer. *)
Lemma grabFrame_keeps (g g' : t) (out f : Frame) (o o' : os) (b : bool) :
  grabFrame g out o = Some (b, g', f, o') ->
  width_ g' = width_ g /\ height_ g' = height_ g /\
  length (buffer_ g') = length (buffer_ g).
Proof.
  intros E. apply Capture.grabFrame_inv in E.
  destruct E as [(_ & -> & _)|(_ & _ & _ & _ & Hc & -> & _)].
  - auto.
  - cbn. apply yuyv2rgba_length in Hc. auto.
Qed.

Lemma later_keeps (g g' : t) :
  later g g' ->
  width_ g' = width_ g /\ height_ g' = height_ g /\
  length (buffer_ g') = length (buffer_ g).
Proof.
  induction 1 as [|g1 g2 out f o o' b _ (IW & IH & IB) E]; [auto|].
  apply grabFrame_keeps in E. destruct E as (EW & EH & EB).
  repeat split; congruence.
Qed.

(** What a successful [initV4L2] leaves: the resolution of the format
    structure, and a buffer sized from it. *)
Lemma initV4L2_success (g g' : t) (o o' : os) :
  initV4L2 g o = (true, g', o') ->
  width_ g' = fst (snd (s_fmt o (width_ g) (height_ g))) /\
  height_ g' = snd (snd (s_fmt o (width_ g) (height_ g))) /\
  length (buffer_ g')
  = Z.to_nat (u32 (u32 (width_ g' * height_ g') * 4)) /\
  0 <= fd_ g'.
Proof.
  unfold initV4L2, sys_open, sys_ioctl_querycap, sys_ioctl_s_fmt.
  cbn [fst snd with_fd logged width_ height_ querycap s_fmt open_result].
  destruct (Z.ltb_spec (open_result o (device_ g)) 0) as [|Hfd];
    [discriminate|].
  destruct (fst (querycap o) <? 0); [discriminate|].
  destruct (Z.land (snd (querycap o)) V4L2_CAP_VIDEO_CAPTURE =? 0);
    [discriminate|].
  destruct (s_fmt o (width_ g) (height_ g)) as [ret [pw ph]]. cbn [fst snd].
  destruct (ret <? 0); [discriminate|].
  destruct (Z.eqb_spec pw (width_ g)) as [Ew|Ew];
    destruct (Z.eqb_spec ph (height_ g)) as [Eh|Eh]; cbn [negb orb];
    intros [= <- _]; cbn [width_ height_ buffer_ fd_];
    rewrite resize_length; subst; auto.
Qed.

(** What holds on every input.  When initialisation succeeds, the grabber
    holds the width and height the device left in the format structure
    (the requested ones if the device did not adjust them), its conversion
    buffer has the size the code forms from them in [uint32_t], and every
    frame grabbed afterwards reports these dimensions, the stride as the
    code forms it and as many bytes; size and stride are
    [width * height * 4] and [width * 4] whenever the frame size fits 32
    bits. *)
Theorem init_adopts_device_resolution
        (source : option string) (g g' : t) (o o' : os) :
  init source g o = (Returns tt, g', o') ->
  let w := fst (snd (s_fmt o (width_ g) (height_ g))) in
  let h := snd (snd (s_fmt o (width_ g) (height_ g))) in
  width_ g' = w /\ height_ g' = h /\
  length (buffer_ g') = Z.to_nat (u32 (u32 (w * h) * 4)) /\
  (forall g1 out o1 g2 f o2,
      later g' g1 ->
      grabFrame g1 out o1 = Some (true, g2, f, o2) ->
      width f = w /\ height f = h /\ stride f = u32 (w * 4) /\
      length (data f) = Z.to_nat (u32 (u32 (w * h) * 4))) /\
  (0 < w -> 0 < h -> w * h * 4 < 2 ^ 32 ->
   u32 (u32 (w * h) * 4) = w * h * 4 /\ u32 (w * 4) = w * 4).
Proof.
  unfold init. intros E.
  set (g0 := match source with
             | Some s => mk (width_ g) (height_ g) (frame_count_ g)
                            (fd_ g) (buffer_ g) s
             | None => g
             end) in E.
  assert (W0 : width_ g0 = width_ g) by (destruct source; reflexivity).
  assert (H0 : height_ g0 = height_ g) by (destruct source; reflexivity).
  destruct (initV4L2 g0 o) as [[ok g1] o1] eqn:EI.
  destruct ok; [|discriminate]. injection E as -> ->.
  apply initV4L2_success in EI. rewrite W0, H0 in EI.
  destruct EI as (EW & EH & EB & _).
  cbv zeta. rewrite <- EW, <- EH.
  split; [reflexivity|]. split; [reflexivity|]. split; [assumption|]. split.
  - intros g2 out o2 g3 f o3 L G.
    apply later_keeps in L. destruct L as (LW & LH & LB).
    pose proof (grabFrame_keeps _ _ _ _ _ _ _ G) as (_ & _ & KB).
    apply Capture.grabFrame_inv in G.
    destruct G as [(? & _)|(_ & _ & _ & _ & _ & _ & ->)]; [discriminate|].
    cbn [width height stride data].
    rewrite LW, LH, KB, LB. auto.
  - intros Hw Hh Hs.
    assert (0 <= width_ g' * height_ g') by (apply Z.mul_nonneg_nonneg; lia).
    assert (width_ g' * 4 <= width_ g' * height_ g' * 4) by nia.
    split.
    + rewrite (u32_small (width_ g' * height_ g')) by lia.
      apply u32_small. lia.
    + apply u32_small. lia.
Qed.

(** A 4x4 request that the camera adjusts to 2x2, and the first frame
    grabbed afterwards. *)
Lemma init_adopts_device_resolution_witness :
  width_ Scenario.opened = 2 /\ height_ Scenario.opened = 2 /\
  length (buffer_ Scenario.opened) = 16%nat /\
  exists g2 f o2,
    grabFrame Scenario.opened Scenario.blank Scenario.camera_on
    = Some (true, g2, f, o2) /\
    width f = 2 /\ height f = 2 /\ stride f = 8 /\
    length (data f) = 16%nat.
Proof.
  assert (E : init None Scenario.webcam Scenario.camera
              = (Returns tt, Scenario.opened, Scenario.camera_on))
    by (vm_compute; reflexivity).
  destruct (init_adopts_device_resolution _ _ _ _ _ E)
    as (HW & HH & HB & HG & _).
  split; [exact HW|]. split; [exact HH|]. split; [exact HB|].
  assert (Eg : exists g2 f o2,
             grabFrame Scenario.opened Scenario.blank Scenario.camera_on
             = Some (true, g2, f, o2))
    by (eexists _, _, _; vm_compute; reflexivity).
  destruct Eg as (g2 & f & o2 & Eg).
  exists g2, f, o2. split; [exact Eg|].
  exact (HG _ _ _ _ _ _ (later_now _) Eg).
Defined.

(** C8, on a device that adjusts a request for 1920 x 1080 to
    65536 x 65536: [init] returns and the grabber adopts the answer, but
    [width_ * height_ * 4] is 2^34 in exact arithmetic and 0 in
    [uint32_t], so the conversion buffer is resized to no bytes, and the
    frame grabbed next reports 65536 x 65536 with stride 262144 and holds
    no bytes. *)
Theorem init_sizes_no_buffer_on_wrapped_resolution :
  exists g o,
    init None (new 1920 1080 "/dev/video0") Scenario.huge_camera
    = (Returns tt, g, o) /\
    width_ g = 65536 /\ height_ g = 65536 /\
    width_ g * height_ g * 4 = 17179869184 /\
    length (buffer_ g) = 0%nat /\
    exists g2 f o2,
      grabFrame g Scenario.blank o = Some (true, g2, f, o2) /\
      width f = 65536 /\ height f = 65536 /\ stride f = 262144 /\
      getTotalBytes f = 0%nat.
Proof.
  eexists _, _. split; [vm_compute; reflexivity|].
  do 4 (split; [reflexivity|]).
  eexists _, _, _. split; [vm_compute; reflexivity|].
  repeat split.
Qed.

End Negotiation.

(** ** Creation and teardown of the compute resources *)

Module Teardown.
Import Vk Asset ComputePipeline Lifecycle.
Local Open Scope pipe_scope.

Lemma created_app (l l' : list event) :
  created (l ++ l') = created l ++ created l'.
Proof.
  induction l as [|[] l IH]; cbn [created app]; rewrite ?IH; reflexivity.
Qed.

Lemma destroyed_app (l l' : list event) :
  destroyed (l ++ l') = destroyed l ++ destroyed l'.
Proof.
  induction l as [|[] l IH]; cbn [destroyed app]; rewrite ?IH; reflexivity.
Qed.

Lemma bind_Returns {A B : Type} (c : M A) (k : A -> M B) (w w' : world) (b : B) :
  bind c k w = (Returns b, w') ->
  exists a w1, c w = (Returns a, w1) /\ k a w1 = (Returns b, w').
Proof.
  unfold bind. destruct (c w) as [[a|what|] w1]; try discriminate.
  intros E. now exists a, w1.
Qed.

Ltac crunch :=
  unfold both, bind, vk_create, create, check, ret, throw, tell, lift,
    grant, told, made;
  cbn;
  repeat match goal with
    | |- context [accepts ?d ?n] =>
        destruct (accepts d n); cbn; try discriminate
    end;
  try (intros [= <-]; reflexivity).

Lemma createImages_inv (w w' : world) (u : unit) :
  createImages w = (Returns u, w') ->
  w' = grant ImageView output_image_view_
         (grant ImageView input_image_view_
            (grant DeviceMemory output_image_memory_
               (grant DeviceMemory input_image_memory_
                  (grant Image output_image_ (grant Image input_image_ w))))).
Proof. destruct w as [p d], u. unfold createImages. crunch. Qed.

Lemma createStagingBuffer_inv (w w' : world) (u : unit) :
  createStagingBuffer w = (Returns u, w') ->
  w' = grant DeviceMemory staging_buffer_memory_
         (grant Buffer staging_buffer_
            (told (BufferInfo (getStagingBufferSize (fst w))) w)).
Proof. destruct w as [p d], u. unfold createStagingBuffer. crunch. Qed.

Lemma createShaderModule_inv (fs : files) (w w' : world) (u : unit) :
  createShaderModule fs w = (Returns u, w') ->
  exists code,
    readShaderFile fs "shaders/pixelation.comp.spv" = Returns code /\
    w' = grant ShaderModule compute_shader_
           (told (ShaderCode (Z.of_nat (length code) * 4) code) w).
Proof.
  destruct w as [p d], u. unfold createShaderModule.
  unfold bind at 1, lift.
  destruct (readShaderFile fs _) as [code| |]; try discriminate.
  intros H. exists code. split; [reflexivity|]. revert H. crunch.
Qed.

Lemma create_inv (o : object) (m : member) (what : string)
      (w w' : world) (u : unit) :
  (ok <- vk_create o m ;; check ok what) w = (Returns u, w') ->
  w' = grant o m w.
Proof. destruct w as [p d], u. crunch. Qed.

Lemma allocateDescriptorSets_inv (w w' : world) (u : unit) :
  allocateDescriptorSets w = (Returns u, w') -> w' = grant_sets w.
Proof.
  destruct w as [p d], u. unfold allocateDescriptorSets, grant_sets, create2.
  crunch.
Qed.

Lemma updateDescriptorSets_eq (w : world) :
  updateDescriptorSets w
  = (Returns tt, written descriptor_sets_1 (written descriptor_sets_0 w)).
Proof. destruct w as [p d]. reflexivity. Qed.

Ltac step H :=
  let a := fresh "a" in let w := fresh "w" in
  let H1 := fresh "S" in
  apply bind_Returns in H; destruct H as (a & w & H1 & H).

Lemma init_inv (fs : files) (W H : Z) (w w' : world) :
  init fs W H w = (Returns tt, w') ->
  exists code,
    readShaderFile fs "shaders/pixelation.comp.spv" = Returns code /\
    w' = initialised_from W H code w.
Proof.
  unfold init. intros E.
  step E. step E. step E. step E. step E. step E. step E. step E. step E.
  step E. step E.
  destruct w as [p d]. injection S as _ <-.
  apply createImages_inv in S0.
  apply createStagingBuffer_inv in S1.
  apply createShaderModule_inv in S2. destruct S2 as (code & Hcode & S2).
  apply create_inv in S3. apply create_inv in S4. apply create_inv in S5.
  apply create_inv in S6. apply allocateDescriptorSets_inv in S7.
  rewrite updateDescriptorSets_eq in S8. injection S8 as _ S8.
  apply create_inv in S9. apply create_inv in E.
  exists code. split; [exact Hcode|].
  unfold initialised_from. cbv zeta. cbn [fst snd].
  congruence.
Qed.

Lemma zrange_snoc (n : nat) : forall i0 : Z,
    zrange i0 (S n) = zrange i0 n ++ [i0 + Z.of_nat n].
Proof.
  induction n as [|n IH]; intros i0.
  - cbn. now rewrite Z.add_0_r.
  - change (zrange i0 (S (S n))) with (i0 :: zrange (i0 + 1) (S n)).
    rewrite IH. cbn [zrange app]. do 3 f_equal. lia.
Qed.

Lemma get_set_same (m : member) (h : handle) (p : t) : get m (set m h p) = h.
Proof. unfold get, set. cbn. destruct m; reflexivity. Qed.

Lemma get_set_other (m m' : member) (h : handle) (p : t) :
  m <> m' -> get m' (set m h p) = get m' p.
Proof.
  intros N. unfold get, set. cbn.
  destruct (member_beq m m') eqn:E; [|reflexivity].
  apply internal_member_dec_bl in E. contradiction.
Qed.

Lemma map_get_set (m : member) (h : handle) (p : t) (ms : list member) :
  ~ In m ms ->
  map (fun m' => get m' (set m h p)) ms = map (fun m' => get m' p) ms.
Proof.
  intros N. apply map_ext_in. intros m' I. apply get_set_other.
  intros ->. contradiction.
Qed.

Lemma filled_grant n0 c0 d0 W H ms w (o : object) (m : member) :
  filled n0 c0 d0 W H ms w -> ~ In m ms ->
  filled n0 c0 d0 W H (ms ++ [m]) (grant o m w).
Proof.
  intros (Hn & Hm & Hc & Hd & HW & HH) N.
  unfold filled, grant, made. cbn [fst snd next log].
  rewrite length_app, map_app, (map_get_set _ _ _ _ N). cbn [length map].
  rewrite get_set_same, Nat.add_1_r, zrange_snoc, map_app.
  rewrite created_app, destroyed_app. cbn [created destroyed map].
  rewrite app_nil_r, Pos2Z.inj_succ, Hc, Hm, Hn, <- app_assoc.
  repeat split; try assumption; try reflexivity. lia.
Qed.

Lemma filled_told n0 c0 d0 W H ms w (e : event) :
  filled n0 c0 d0 W H ms w ->
  (forall o h, e <> Created o h) -> (forall o h, e <> Destroyed o h) ->
  filled n0 c0 d0 W H ms (told e w).
Proof.
  intros (Hn & Hm & Hc & Hd & HW & HH) NC ND.
  unfold filled, told, emit. cbn [fst snd next log].
  rewrite created_app, destroyed_app.
  destruct e; try (now exfalso; eapply NC); try (now exfalso; eapply ND);
    cbn [created destroyed]; rewrite !app_nil_r; repeat split; assumption.
Qed.

Lemma filled_written n0 c0 d0 W H ms w (slot : member) :
  filled n0 c0 d0 W H ms w -> filled n0 c0 d0 W H ms (written slot w).
Proof.
  intros F. unfold written.
  apply filled_told; [|discriminate|discriminate].
  apply filled_told; [assumption|discriminate|discriminate].
Qed.

Lemma filled_grant_sets n0 c0 d0 W H ms w :
  filled n0 c0 d0 W H ms w ->
  ~ In descriptor_sets_0 ms -> ~ In descriptor_sets_1 ms ->
  filled n0 c0 d0 W H (ms ++ [descriptor_sets_0; descriptor_sets_1])
         (grant_sets w).
Proof.
  intros (Hn & Hm & Hc & Hd & HW & HH) N0 N1.
  unfold filled, grant_sets. cbn [fst snd next log].
  rewrite length_app, map_app.
  rewrite (map_get_set _ _ _ _ N1), (map_get_set _ _ _ _ N0).
  cbn [length map].
  rewrite get_set_same, (get_set_other descriptor_sets_1 descriptor_sets_0)
    by discriminate.
  rewrite get_set_same.
  replace (length ms + 2)%nat with (S (S (length ms))) by lia.
  rewrite !zrange_snoc, !map_app, <- !app_assoc.
  rewrite created_app, destroyed_app. cbn [created destroyed map app].
  rewrite app_nil_r, !Pos2Z.inj_succ, Hc, Hm, Hn, <- app_assoc.
  repeat split; try assumption; try reflexivity; try lia.
  do 3 f_equal. f_equal. lia.
Qed.

Ltac grant_in F o m :=
  apply (filled_grant _ _ _ _ _ _ _ o m) in F; [|cbn; intuition discriminate].

Ltac told_in F f :=
  match type of F with
  | filled _ _ _ _ _ _ ?w =>
      let e := eval cbv beta in (f w) in
      apply (filled_told _ _ _ _ _ _ _ e) in F; [|discriminate|discriminate]
  end.

(** The handles [n, n+1, ...] the device hands out from [n] on. *)
Lemma initialised_handles (W H : Z) (code : list Z) (p : t) (d : driver) :
  filled (next d) (created (log d)) (destroyed (log d)) W H creation_order
         (initialised_from W H code (p, d)).
Proof.
  unfold initialised_from. cbv zeta.
  assert (F : filled (next d) (created (log d)) (destroyed (log d)) W H []
                     (mk W H (handles (fst (p, d))), snd (p, d))).
  { unfold filled. cbn [fst snd length map zrange width_ height_ Z.of_nat].
    rewrite Z.add_0_r, app_nil_r. repeat split. }
  revert F. generalize (mk W H (handles (fst (p, d))), snd (p, d)).
  intros w F.
  grant_in F Image input_image_.
  grant_in F Image output_image_.
  grant_in F DeviceMemory input_image_memory_.
  grant_in F DeviceMemory output_image_memory_.
  grant_in F ImageView input_image_view_.
  grant_in F ImageView output_image_view_.
  told_in F (fun w : world => BufferInfo (getStagingBufferSize (fst w))).
  grant_in F Buffer staging_buffer_.
  grant_in F DeviceMemory staging_buffer_memory_.
  told_in F (fun _ : world => ShaderCode (Z.of_nat (length code) * 4) code).
  grant_in F ShaderModule compute_shader_.
  grant_in F DescriptorSetLayout descriptor_set_layout_.
  grant_in F PipelineLayout pipeline_layout_.
  grant_in F Pipeline compute_pipeline_.
  grant_in F DescriptorPool descriptor_pool_.
  apply filled_grant_sets in F;
    [|cbn; intuition discriminate|cbn; intuition discriminate].
  apply (filled_written _ _ _ _ _ _ _ descriptor_sets_0) in F.
  apply (filled_written _ _ _ _ _ _ _ descriptor_sets_1) in F.
  grant_in F CommandBuffer compute_command_buffer_.
  grant_in F Fence compute_fence_.
  exact F.
Qed.

Lemma bind_release {B : Type} (o : object) (m : member) (k : unit -> M B)
      (p : t) (d : driver) :
  bind (release o m) k (p, d) = k tt (p, released o m p d).
Proof.
  unfold bind, release, released.
  destruct (negb (get m p =? VK_NULL_HANDLE)); reflexivity.
Qed.

Lemma release_eq (o : object) (m : member) (p : t) (d : driver) :
  release o m (p, d) = (Returns tt, (p, released o m p d)).
Proof.
  unfold release, released.
  destruct (negb (get m p =? VK_NULL_HANDLE)); reflexivity.
Qed.

Lemma destroyed_released (o : object) (m : member) (p : t) (d : driver) :
  destroyed (log (released o m p d)) = destroyed (log d) ++ keep (get m p).
Proof.
  unfold released, keep, destroy, emit.
  destruct (negb (get m p =? VK_NULL_HANDLE)); cbn [log].
  - now rewrite destroyed_app.
  - now rewrite app_nil_r.
Qed.

Lemma created_released (o : object) (m : member) (p : t) (d : driver) :
  created (log (released o m p d)) = created (log d).
Proof.
  unfold released, destroy, emit.
  destruct (negb (get m p =? VK_NULL_HANDLE)); cbn [log]; [|reflexivity].
  rewrite created_app. cbn. now rewrite app_nil_r.
Qed.

Lemma filter_keep (h : handle) (l : list handle) :
  filter (fun h => negb (h =? VK_NULL_HANDLE)) (h :: l)
  = keep h ++ filter (fun h => negb (h =? VK_NULL_HANDLE)) l.
Proof. unfold keep. cbn [filter]. now destruct (negb (h =? VK_NULL_HANDLE)). Qed.

(** [cleanup] always returns, leaves every member as it was, and passes to
    the device each non-null handle, in the order of [release_order]. *)
Lemma cleanup_spec (p : t) (d : driver) :
  exists d',
    cleanup (p, d) = (Returns tt, (p, d')) /\
    destroyed (log d') = destroyed (log d) ++ live p /\
    created (log d') = created (log d).
Proof.
  unfold cleanup.
  repeat (rewrite bind_release; cbv beta).
  rewrite release_eq. eexists. split; [reflexivity|].
  unfold live, release_order. cbn [map].
  split.
  - rewrite !destroyed_released, !filter_keep, <- !app_assoc.
    cbn [filter]. rewrite app_nil_r. reflexivity.
  - rewrite !created_released. reflexivity.
Qed.

(** After an [init] that returned, every member [cleanup] looks at is set. *)
Lemma filled_live n0 c0 d0 W H (w : world) :
  filled n0 c0 d0 W H creation_order w ->
  live (fst w) = map (fun m => get m (fst w)) release_order.
Proof.
  intros (_ & Hm & _).
  assert (P : forall m, In m creation_order -> 0 < get m (fst w)).
  { intros m I.
    assert (I' : In (get m (fst w))
                    (map (fun m => get m (fst w)) creation_order))
      by (apply (in_map (fun m => get m (fst w))), I).
    rewrite Hm in I'. apply in_map_iff in I'.
    destruct I' as (k & <- & Ik). apply zrange_In in Ik. lia. }
  unfold live.
  assert (Q : forall ms, (forall m, In m ms -> In m creation_order) ->
                         filter (fun h => negb (h =? VK_NULL_HANDLE))
                                (map (fun m => get m (fst w)) ms)
                         = map (fun m => get m (fst w)) ms).
  { induction ms as [|m ms IH]; intros Hs; [reflexivity|].
    cbn [map filter].
    assert (0 < get m (fst w)) by (apply P, Hs; now left).
    destruct (Z.eqb_spec (get m (fst w)) VK_NULL_HANDLE) as [e|_];
      [unfold VK_NULL_HANDLE in e; lia|].
    cbn [negb].
    rewrite IH; [reflexivity|]. intros m' I'. apply Hs. now right. }
  apply Q. intros m I. cbn in I. cbn.
  intuition (subst; auto 20).
Qed.

(** C4 as stated, on a 2x2 pipeline and a device that accepts every call:
    [init] creates the handles 1 to 17 in this order, and [cleanup] does not
    release them in the reverse order; the staging buffer (7, 8), created
    after the image views (5, 6), is also released after them. *)
Lemma cleanup_is_not_the_reverse_of_init :
  fst (init Scenario.fs_aligned 2 2 (new, Scenario.willing)) = Returns tt /\
  created (log (snd Scenario.initialised))
  = [1; 2; 3; 4; 5; 6; 7; 8; 9; 10; 11; 12; 13; 14; 15; 16; 17] /\
  destroyed (log (snd (snd (cleanup Scenario.initialised))))
  = [17; 13; 12; 11; 10; 9; 5; 6; 1; 2; 3; 4; 7; 8] /\
  destroyed (log (snd (snd (cleanup Scenario.initialised))))
  <> rev (created (log (snd Scenario.initialised))).
Proof. vm_compute. repeat split. discriminate. Qed.

(** C4, amended.  After an [init] that returned, [cleanup] returns and
    releases, in this order: fence, descriptor pool, pipeline, pipeline
    layout, descriptor set layout, shader module, the two image views, the
    two images, the two image memories, staging buffer, staging memory.
    That is the reverse of the creation order for the objects [init]
    creates from the shader module on (the descriptor sets and the command
    buffer have no release of their own), followed by the image objects and
    then the staging objects, which [init] creates first. *)
Theorem cleanup_release_order
        (fs : files) (W H : Z) (w : world) (p1 : t) (d1 : driver) :
  init fs W H w = (Returns tt, (p1, d1)) ->
  let h := fun m => get m p1 in
  created (log d1) = created (log (snd w)) ++ map h creation_order /\
  map h creation_order
  = map (fun k => Z.pos (next (snd w)) + k) (zrange 0 17) /\
  (exists d2,
      cleanup (p1, d1) = (Returns tt, (p1, d2)) /\
      destroyed (log d2) = destroyed (log (snd w)) ++ map h release_order) /\
  release_order
  = rev (filter released_individually late_members)
    ++ [input_image_view_; output_image_view_; input_image_; output_image_;
        input_image_memory_; output_image_memory_]
    ++ staging_members.
Proof.
  intros E. apply init_inv in E. destruct E as (code & _ & E).
  destruct w as [p d].
  pose proof (initialised_handles W H code p d) as F.
  rewrite <- E in F.
  pose proof (filled_live _ _ _ _ _ _ F) as Hl.
  destruct F as (_ & Hh & Hc & Hd & _). cbn [fst snd] in *.
  split; [exact Hc|]. split; [exact Hh|]. split; [|reflexivity].
  destruct (cleanup_spec p1 d1) as (d2 & E2 & D2 & _).
  exists d2. split; [exact E2|]. now rewrite D2, Hd, Hl.
Qed.

(** The 2x2 pipeline on the device that accepts every call. *)
Lemma cleanup_release_order_witness :
  exists d2,
    cleanup Scenario.initialised
    = (Returns tt, (fst Scenario.initialised, d2)) /\
    destroyed (log d2)
    = [17; 13; 12; 11; 10; 9; 5; 6; 1; 2; 3; 4; 7; 8].
Proof.
  assert (E : init Scenario.fs_aligned 2 2 (new, Scenario.willing)
              = (Returns tt, (fst Scenario.initialised,
                              snd Scenario.initialised)))
    by (vm_compute; reflexivity).
  destruct (cleanup_release_order _ _ _ _ _ _ E)
    as (_ & _ & (d2 & Hc & Hd) & _).
  exists d2. split.
  - rewrite <- Hc. now destruct Scenario.initialised.
  - rewrite Hd. vm_compute. reflexivity.
Defined.

(** Two teardowns in a row release every live handle twice. *)
Lemma cleanup_twice (p : t) (d : driver) :
  exists d1 d2,
    cleanup (p, d) = (Returns tt, (p, d1)) /\
    cleanup (p, d1) = (Returns tt, (p, d2)) /\
    destroyed (log d2) = destroyed (log d) ++ live p ++ live p.
Proof.
  destruct (cleanup_spec p d) as (d1 & E1 & D1 & _).
  destruct (cleanup_spec p d1) as (d2 & E2 & D2 & _).
  exists d1, d2. repeat split; try assumption.
  now rewrite D2, D1, <- app_assoc.
Qed.

(** A pipeline that was never initialised has nothing to release. *)
Lemma cleanup_new (d : driver) :
  cleanup (new, d) = (Returns tt, (new, d)).
Proof. destruct d. reflexivity. Qed.

(** The capture source does reset what it releases: a second [cleanup]
    finds the descriptor at -1 and the buffer empty, and does nothing. *)
Lemma webcam_cleanup_idempotent (g : WebcamGrabber.t) (o : V4L2.os) :
  let '(g1, o1) := WebcamGrabber.cleanup g o in
  WebcamGrabber.cleanup g1 o1 = (g1, o1).
Proof.
  unfold WebcamGrabber.cleanup.
  destruct (0 <=? WebcamGrabber.fd_ g) eqn:E; cbn.
  - reflexivity.
  - rewrite E. reflexivity.
Qed.

(** C5, on the 2x2 pipeline after a successful [init]: both teardowns
    return, and the second passes to the device the fourteen handles the
    first one already released. *)
Theorem cleanup_twice_releases_twice :
  let w1 := snd (cleanup Scenario.initialised) in
  let w2 := snd (cleanup w1) in
  fst (cleanup Scenario.initialised) = Returns tt /\
  fst (cleanup w1) = Returns tt /\
  destroyed (log (snd w1))
  = [17; 13; 12; 11; 10; 9; 5; 6; 1; 2; 3; 4; 7; 8] /\
  destroyed (log (snd w2))
  = [17; 13; 12; 11; 10; 9; 5; 6; 1; 2; 3; 4; 7; 8;
     17; 13; 12; 11; 10; 9; 5; 6; 1; 2; 3; 4; 7; 8].
Proof. vm_compute. repeat split. Qed.

End Teardown.

(** ** Loading the shader asset *)

Module Loading.
Import Vk Asset ComputePipeline Lifecycle BT601.





Lemma copy_into_exact (dst src : list Z) :
  length src = length dst -> copy_into dst src = Some src.
Proof.
  intros E. unfold copy_into.
  now rewrite E, Nat.leb_refl, skipn_all, app_nil_r.
Qed.



(** A file whose size is not a multiple of four is read past the end of
    the vector; no exception is raised. *)
Lemma readShaderFile_unaligned (fs : files) (name : string) (contents : list Z) :
  fs name = Some contents ->
  (length contents mod 4 <> 0)%nat ->
  readShaderFile fs name = Undefined.
Proof.
  intros E Ha. unfold readShaderFile, copy_into. rewrite E, repeat_length.
  pose proof (Nat.div_mod_eq (length contents) 4).
  destruct (Nat.leb_spec (length contents) (4 * (length contents / 4)));
    [lia|reflexivity].
Qed.




End Loading.

(** ** Uploading a frame to the staging buffer *)

Module Upload.
Import Asset ComputePipeline Lifecycle ObscuraRT.


Lemma pattern_length (W H : Z) :
  length (FrameGrabber.pattern W H) = (Z.to_nat H * (Z.to_nat W * 4))%nat.
Proof.
  unfold FrameGrabber.pattern. generalize 0 at 1.
  induction (Z.to_nat H) as [|n IH]; intros i0; [reflexivity|].
  cbn [zrange flat_map]. rewrite length_app, IH, TestPattern.row_length. lia.
Qed.











End Upload.

(* ================================================================== *)
(** * Part III: further properties of the code                         *)
(* ================================================================== *)

(** ** The test pattern: shape, range, and the limits of 32 bits *)

Ltac evaluate := vm_compute; repeat split; try discriminate; try reflexivity.

Module PatternFacts.
Import FrameGrabber Dimensions.

(** X1.  On dimensions where no intermediate product leaves 32 bits
    ([width * height < 2^32] and [(width + height - 2) * 255 < 2^32]),
    [grabFrame] returns true and pixel [(x, y)] of the frame has red
    [floor(x*255/width)], green [floor(y*255/height)], blue
    [floor((x+y)*255/(width+height))] and alpha 255. *)
Theorem gradient_exact (g : t) (out_frame : Frame) (x y : Z) :
  exact_dims (width_ g) (height_ g) ->
  0 <= x < width_ g -> 0 <= y < height_ g ->
  exists g' f,
    grabFrame g out_frame = Some (true, g', f) /\
    channel f x y 0 = Some (x * 255 / width_ g) /\
    channel f x y 1 = Some (y * 255 / height_ g) /\
    channel f x y 2 = Some ((x + y) * 255 / (width_ g + height_ g)) /\
    channel f x y 3 = Some 255.
Proof.
  intros E Hx Hy.
  eexists _, _. split;
    [apply TestPattern.grabFrame_pattern, TestPattern.exact_dims_fits, E|].
  unfold channel, byte_at; cbn [data width].
  rewrite !TestPattern.pattern_byte by lia.
  rewrite (TestPattern.pixel_exact _ _ _ _ E Hx Hy).
  repeat split; reflexivity.
Qed.

(** A 3x2 frame, pixel (1, 1). *)
Lemma gradient_exact_witness :
  exists g' f,
    grabFrame (mk 3 2 7) Scenario.blank = Some (true, g', f) /\
    channel f 1 1 0 = Some 85 /\ channel f 1 1 1 = Some 127 /\
    channel f 1 1 2 = Some 102 /\ channel f 1 1 3 = Some 255.
Proof.
  apply (gradient_exact (mk 3 2 7) Scenario.blank 1 1); evaluate.
Defined.

(** X4.  The frame depends on the dimensions only: grabbers of equal
    dimensions produce the same frame whatever their counters and whatever
    the caller's frame held before, and so does the same grabber on its
    next call. *)
Theorem grabFrame_ignores_history (g1 g2 : t) (out1 out2 out3 : Frame) :
  width_ g1 = width_ g2 -> height_ g1 = height_ g2 ->
  fits (width_ g1) (height_ g1) ->
  exists g1' g2' g1'' f,
    grabFrame g1 out1 = Some (true, g1', f) /\
    grabFrame g2 out2 = Some (true, g2', f) /\
    grabFrame g1' out3 = Some (true, g1'', f).
Proof.
  intros EW EH F.
  eexists _, _, _, _. split; [apply TestPattern.grabFrame_pattern, F|].
  split.
  - rewrite (TestPattern.grabFrame_pattern g2 out2)
      by (rewrite <- EW, <- EH; exact F).
    now rewrite EW, EH.
  - rewrite TestPattern.grabFrame_pattern by exact F. reflexivity.
Qed.

(** Two 3x2 grabbers with different counters, filling different frames. *)
Lemma grabFrame_ignores_history_witness :
  exists g1' g2' g1'' f,
    grabFrame (mk 3 2 7) Scenario.blank = Some (true, g1', f) /\
    grabFrame (mk 3 2 4000) (mkFrame 9 9 9 [1; 2; 3]) = Some (true, g2', f) /\
    grabFrame g1' (mkFrame 1 1 4 [5; 5; 5; 5]) = Some (true, g1'', f).
Proof.
  apply (grabFrame_ignores_history
           (mk 3 2 7) (mk 3 2 4000) Scenario.blank (mkFrame 9 9 9 [1; 2; 3])
           (mkFrame 1 1 4 [5; 5; 5; 5]));
    evaluate.
Defined.

(** X3.  When the pixel count and the row size fit 32 bits, [grabFrame]
    returns true with a frame of the grabber's width and height, stride
    [4 * width], and exactly [stride * height] bytes; the grabber keeps its
    dimensions and its counter advances by one (modulo 2^32). *)
Theorem grabFrame_frame_shape (g : t) (out_frame : Frame) :
  fits (width_ g) (height_ g) -> width_ g * 4 < 2 ^ 32 ->
  exists g' f,
    grabFrame g out_frame = Some (true, g', f) /\
    width f = width_ g /\ height f = height_ g /\
    stride f = 4 * width_ g /\
    Z.of_nat (getTotalBytes f) = stride f * height f /\
    width_ g' = width_ g /\ height_ g' = height_ g /\
    frame_count_ g' = u32 (frame_count_ g + 1).
Proof.
  intros F HS. pose proof F as (HW & HH & _).
  eexists _, _. split; [apply TestPattern.grabFrame_pattern, F|].
  unfold getTotalBytes. cbn [width height stride data width_ height_ frame_count_].
  rewrite Upload.pattern_length, u32_small by lia.
  repeat split; try reflexivity; lia.
Qed.

Lemma grabFrame_frame_shape_witness :
  exists g' f,
    grabFrame (mk 3 2 7) Scenario.blank = Some (true, g', f) /\
    width f = 3 /\ height f = 2 /\ stride f = 12 /\
    Z.of_nat (getTotalBytes f) = stride f * height f /\
    width_ g' = 3 /\ height_ g' = 2 /\ frame_count_ g' = 8.
Proof.
  apply (grabFrame_frame_shape (mk 3 2 7) Scenario.blank).
  - evaluate.
  - reflexivity.
Defined.

Lemma quotient_below_255 (a n : Z) : 0 <= a < n -> 0 <= a * 255 / n <= 254.
Proof.
  intros H. split; [apply Z.div_pos; lia|].
  assert (a * 255 / n < 255) by (apply Z.div_lt_upper_bound; lia). lia.
Qed.

(** X2.  On dimensions without wrap-around the pattern is a gradient: red
    does not decrease along a row, green does not decrease down a column,
    blue does not decrease along either, no colour channel exceeds 254, and
    the top-left pixel is black. *)
Theorem gradient_is_monotone (g : t) (out_frame : Frame) (x x' y y' : Z) :
  exact_dims (width_ g) (height_ g) ->
  0 <= x <= x' -> x' < width_ g -> 0 <= y <= y' -> y' < height_ g ->
  exists g' f r r' gr gr' b b',
    grabFrame g out_frame = Some (true, g', f) /\
    channel f x y 0 = Some r /\ channel f x' y' 0 = Some r' /\
    channel f x y 1 = Some gr /\ channel f x' y' 1 = Some gr' /\
    channel f x y 2 = Some b /\ channel f x' y' 2 = Some b' /\
    0 <= r <= r' /\ r' <= 254 /\
    0 <= gr <= gr' /\ gr' <= 254 /\
    0 <= b <= b' /\ b' <= 254 /\
    channel f 0 0 0 = Some 0 /\ channel f 0 0 1 = Some 0 /\
    channel f 0 0 2 = Some 0 /\ channel f 0 0 3 = Some 255.
Proof.
  intros E Hx Hx' Hy Hy'. pose proof E as (HW & HH & HP & HS).
  set (W := width_ g) in *. set (H := height_ g) in *.
  exists (mk W H (u32 (frame_count_ g + 1))),
         (mkFrame W H (u32 (W * 4)) (pattern W H)),
         (x * 255 / W), (x' * 255 / W), (y * 255 / H), (y' * 255 / H),
         ((x + y) * 255 / (W + H)), ((x' + y') * 255 / (W + H)).
  split; [apply TestPattern.grabFrame_pattern, TestPattern.exact_dims_fits, E|].
  unfold channel, byte_at; cbn [data width].
  rewrite !TestPattern.pattern_byte by lia.
  rewrite (TestPattern.pixel_exact W H x y E) by lia.
  rewrite (TestPattern.pixel_exact W H x' y' E) by lia.
  rewrite (TestPattern.pixel_exact W H 0 0 E) by lia.
  pose proof (quotient_below_255 x W). pose proof (quotient_below_255 x' W).
  pose proof (quotient_below_255 y H). pose proof (quotient_below_255 y' H).
  pose proof (quotient_below_255 (x + y) (W + H)).
  pose proof (quotient_below_255 (x' + y') (W + H)).
  assert (x * 255 / W <= x' * 255 / W) by (apply Z.div_le_mono; lia).
  assert (y * 255 / H <= y' * 255 / H) by (apply Z.div_le_mono; lia).
  assert ((x + y) * 255 / (W + H) <= (x' + y') * 255 / (W + H))
    by (apply Z.div_le_mono; lia).
  repeat split; try reflexivity; lia.
Qed.

Lemma gradient_is_monotone_witness :
  exists g' f r r' gr gr' b b',
    grabFrame (mk 3 2 7) Scenario.blank = Some (true, g', f) /\
    channel f 1 0 0 = Some r /\ channel f 2 1 0 = Some r' /\
    channel f 1 0 1 = Some gr /\ channel f 2 1 1 = Some gr' /\
    channel f 1 0 2 = Some b /\ channel f 2 1 2 = Some b' /\
    0 <= r <= r' /\ r' <= 254 /\
    0 <= gr <= gr' /\ gr' <= 254 /\
    0 <= b <= b' /\ b' <= 254 /\
    channel f 0 0 0 = Some 0 /\ channel f 0 0 1 = Some 0 /\
    channel f 0 0 2 = Some 0 /\ channel f 0 0 3 = Some 255.
Proof.
  apply (gradient_is_monotone (mk 3 2 7) Scenario.blank 1 2 0 1).
  - evaluate.
  - evaluate.
  - reflexivity.
  - evaluate.
  - reflexivity.
Defined.

Lemma store_length (buf : list Z) :
  forall (i : nat) (v : Z) (buf' : list Z),
    store buf i v = Some buf' ->
    length buf' = length buf /\ (i < length buf)%nat.
Proof.
  induction buf as [|h t IH]; intros i v buf' E; [discriminate|].
  destruct i as [|i]; cbn [store] in E.
  - injection E as <-. cbn. lia.
  - destruct (store t i v) as [t'|] eqn:Et; [|discriminate].
    injection E as <-. apply IH in Et. cbn. lia.
Qed.

Lemma put_pixel_advances (W H y x : Z) :
  Cursor.advances 4 (put_pixel W H y x).
Proof.
  intros ptr buf.
  assert (S : forall ptr' buf',
             put_pixel W H y x (ptr, buf) = Some (ptr', buf') ->
             ptr' = (ptr + 4)%nat /\ length buf' = length buf /\
             (ptr + 3 < length buf)%nat).
  { intros ptr' buf'. unfold put_pixel.
    destruct (udiv _ W) as [r|]; [|discriminate].
    destruct (udiv _ H) as [gr|]; [|discriminate].
    destruct (udiv _ (u32 (W + H))) as [b|]; [|discriminate].
    destruct (store buf ptr _) as [b1|] eqn:E1; [|discriminate].
    destruct (store b1 _ _) as [b2|] eqn:E2; [|discriminate].
    destruct (store b2 _ _) as [b3|] eqn:E3; [|discriminate].
    destruct (store b3 _ _) as [b4|] eqn:E4; [|discriminate].
    intros [= <- <-].
    apply store_length in E1, E2, E3, E4. lia. }
  split.
  - intros _ Hs. destruct (put_pixel W H y x (ptr, buf)) as [[ptr' buf']|];
      [|reflexivity].
    destruct (S _ _ eq_refl) as (_ & _ & ?). lia.
  - intros ptr' buf' E. apply S in E. tauto.
Qed.

(** A loop of advancing steps advances by the sum. *)
Lemma for_upto_advances (k : nat)
      (body : Z -> nat * list Z -> option (nat * list Z)) :
  (forall i, Cursor.advances k (body i)) ->
  forall (n : nat) (i0 : Z), Cursor.advances (n * k) (for_upto n i0 body).
Proof.
  intros Hb. induction n as [|n IH]; intros i0 ptr buf.
  - cbn [for_upto Nat.mul]. split.
    + intros; lia.
    + intros ptr' buf' [= <- <-]. split; [lia|reflexivity].
  - cbn [for_upto]. destruct (Hb i0 ptr buf) as [Hnone Hsome].
    destruct (body i0 (ptr, buf)) as [[p1 b1]|] eqn:E.
    + destruct (Hsome _ _ eq_refl) as [-> Hl].
      destruct (IH (i0 + 1) (ptr + k)%nat b1) as [INone ISome].
      split.
      * intros Hp Hs.
        destruct (Nat.lt_ge_cases (length buf) (ptr + k)) as [Hlt|Hge].
        -- pose proof (Hnone Hp Hlt). discriminate.
        -- apply INone; rewrite Hl; cbn [Nat.mul] in Hs; lia.
      * intros ptr' buf' E'. apply ISome in E'. cbn [Nat.mul]. lia.
    + split; [reflexivity|discriminate].
Qed.

(** X5.  When the pixel count [width * height] does not fit 32 bits, the
    vector is resized from the wrapped count and the loops store past its
    end: [grabFrame] has no defined result. *)
Theorem grabFrame_pixel_count_overflow (g : t) (out_frame : Frame) :
  0 < width_ g < 2 ^ 32 -> 0 < height_ g < 2 ^ 32 ->
  2 ^ 32 <= width_ g * height_ g ->
  grabFrame g out_frame = None.
Proof.
  intros HW HH HO. unfold grabFrame.
  set (W := width_ g) in *. set (H := height_ g) in *.
  set (buf := resize _ _).
  pose proof (for_upto_advances (Z.to_nat W * 4)
                (fun y => for_upto (Z.to_nat W) 0 (put_pixel W H y))) as A.
  specialize (A (fun y => for_upto_advances 4 (put_pixel W H y)
                            (put_pixel_advances W H y) (Z.to_nat W) 0)).
  destruct (A (Z.to_nat H) 0 0%nat buf) as [ANone _].
  rewrite ANone; [reflexivity|lia|].
  unfold buf. rewrite resize_length.
  assert (0 <= u32 (W * H) < 2 ^ 32) by (apply Z.mod_pos_bound; lia).
  nia.
Qed.

Lemma grabFrame_pixel_count_overflow_witness :
  grabFrame (mk 65536 65536 0) Scenario.blank = None.
Proof.
  apply (grabFrame_pixel_count_overflow (mk 65536 65536 0) Scenario.blank).
  - cbn [width_]. lia.
  - cbn [height_]. lia.
  - cbn [width_ height_]. lia.
Defined.

End PatternFacts.

(** ** The conversion loop at the ends of its buffers *)

Module ConversionFacts.
Import V4L2 WebcamGrabber BT601 Chunks Acquisition.

Lemma trips_step (i pixels : Z) : trips (i + 2) pixels = trips i pixels - 1.
Proof.
  unfold trips.
  replace (pixels - (i + 2) + 1) with (pixels - i + 1 + (-1) * 2) by lia.
  now rewrite Z.div_add by lia.
Qed.

Lemma trips_pos (i pixels : Z) : 1 <= trips i pixels -> i < pixels.
Proof.
  unfold trips. intros H.
  destruct (Z.lt_ge_cases i pixels) as [|Hge]; [assumption|].
  assert ((pixels - i + 1) / 2 <= 1 / 2) by (apply Z.div_le_mono; lia).
  change (1 / 2) with 0 in *. lia.
Qed.

(** The loop runs out of a buffer that holds fewer groups than it has
    trips to make. *)
Lemma yuyv2rgba_from_short (n : nat) :
  forall (yuyv rgba : list Z) (i pixels : Z),
    (length yuyv <= n)%nat ->
    0 <= i -> pixels < 2 ^ 32 ->
    Z.of_nat (length yuyv) < 4 * trips i pixels \/
    Z.of_nat (length rgba) < 8 * trips i pixels ->
    yuyv2rgba_from i pixels yuyv rgba = None.
Proof.
  induction n as [|n IH]; intros yuyv rgba i pixels Hn Hi Hp Hs.
  - destruct yuyv; [|cbn in Hn; lia].
    cbn [yuyv2rgba_from].
    rewrite (proj2 (Z.ltb_lt i pixels)); [reflexivity|].
    apply trips_pos. cbn [length] in Hs. lia.
  - assert (Hlt : i < pixels) by (apply trips_pos; lia).
    destruct yuyv as [|y1 [|u [|y2 [|v yuyv']]]];
      cbn [yuyv2rgba_from]; rewrite (proj2 (Z.ltb_lt i pixels) Hlt);
      try reflexivity.
    destruct rgba as [|o0 [|o1 [|o2 [|o3 [|o4 [|o5 [|o6 [|o7 rgba']]]]]]]];
      try reflexivity.
    assert (T : 2 <= trips i pixels) by (cbn [length] in Hs; lia).
    assert (i + 2 < pixels)
      by (apply trips_pos; rewrite trips_step; lia).
    rewrite u32_small by lia.
    rewrite IH; [reflexivity|cbn [length] in Hn; lia|lia|lia|].
    rewrite trips_step. cbn [length] in Hs. lia.
Qed.

(** X6.  [yuyv2rgba] makes [ceil(pixels / 2)] trips of four input and
    eight output bytes: if either buffer is shorter than that, in
    particular for an odd pixel count with buffers of [2 * pixels] and
    [4 * pixels] bytes, an access falls outside it and the conversion has
    no defined result. *)
Theorem yuyv2rgba_short_buffer (yuyv rgba : list Z) (pixels : Z) :
  pixels < 2 ^ 32 ->
  Z.of_nat (length yuyv) < 4 * ((pixels + 1) / 2) \/
  Z.of_nat (length rgba) < 8 * ((pixels + 1) / 2) ->
  yuyv2rgba yuyv rgba pixels = None.
Proof.
  intros Hp Hs. unfold yuyv2rgba.
  apply (yuyv2rgba_from_short (length yuyv)); try lia.
  unfold trips. now rewrite Z.sub_0_r.
Qed.

(** Three pixels in buffers of 6 and 12 bytes. *)
Lemma yuyv2rgba_short_buffer_witness :
  yuyv2rgba (repeat 7 6) (repeat 0 12) 3 = None.
Proof.
  apply (yuyv2rgba_short_buffer (repeat 7 6) (repeat 0 12) 3).
  - reflexivity.
  - left. reflexivity.
Defined.

(** X7.  The conversion works in place on the front of the output buffer:
    after converting [n] groups the bytes from offset [8 * n] on are what
    they were, and with no pixel to convert the buffer is returned as it
    is. *)
Theorem yuyv2rgba_keeps_the_rest (groups : list group) (rgba : list Z) :
  Forall bytes groups ->
  2 * Z.of_nat (length groups) < 2 ^ 32 ->
  (8 * length groups <= length rgba)%nat ->
  yuyv2rgba (flat_map packed groups) rgba (2 * Z.of_nat (length groups))
  = Some (flat_map pixels_of groups ++ skipn (8 * length groups) rgba) /\
  forall yuyv, yuyv2rgba yuyv rgba 0 = Some rgba.
Proof.
  intros Hb Hp Hr. split.
  - unfold yuyv2rgba.
    apply (Conversion.yuyv2rgba_from_groups groups Hb); lia.
  - intros yuyv. apply Conversion.yuyv2rgba_from_done. lia.
Qed.

(** One group into a buffer of eleven bytes. *)
Lemma yuyv2rgba_keeps_the_rest_witness :
  yuyv2rgba [255; 0; 255; 255] [1; 2; 3; 4; 5; 6; 7; 8; 9; 10; 11] 2
  = Some [255; 225; 20; 255; 255; 225; 20; 255; 9; 10; 11].
Proof.
  apply (proj1 (yuyv2rgba_keeps_the_rest
                  [(255, 0, 255, 255)] [1; 2; 3; 4; 5; 6; 7; 8; 9; 10; 11]
                  ltac:(repeat constructor; evaluate)
                  ltac:(reflexivity)
                  ltac:(cbn; lia))).
Defined.

End ConversionFacts.

(** ** The capture source: a session from [init] to [cleanup] *)

Module SessionFacts.
Import V4L2 WebcamGrabber BT601 Chunks Acquisition.

Lemma groups_of_packed (k : nat) :
  forall l : list Z,
    length l = (4 * k)%nat ->
    flat_map packed (groups_of l) = l /\
    length (groups_of l) = k /\
    (Forall is_byte l -> Forall bytes (groups_of l)).
Proof.
  induction k as [|k IH]; intros l Hl.
  - destruct l; [|discriminate]. repeat split. constructor.
  - destruct l as [|y1 [|u [|y2 [|v rest]]]]; try (cbn in Hl; lia).
    destruct (IH rest) as (Ep & El & Eb); [cbn in Hl; lia|].
    cbn [groups_of flat_map packed app length]. rewrite Ep, El.
    repeat split.
    intros Hb.
    inversion Hb as [|? ? B0 Hb1]; subst.
    inversion Hb1 as [|? ? B1 Hb2]; subst.
    inversion Hb2 as [|? ? B2 Hb3]; subst.
    inversion Hb3 as [|? ? B3 Hr]; subst.
    constructor; [cbn; tauto|auto].
Qed.

Lemma Forall_front {A : Type} (P : A -> Prop) (n : nat) :
  forall l : list A, Forall P l -> Forall P (firstn n l).
Proof.
  induction n as [|n IH]; intros l Hl; [constructor|].
  destruct Hl as [|a l Ha Hl]; cbn [firstn]; constructor; auto.
Qed.

(** A read leaves the buffer at its length. *)
Lemma the_read_length (g : t) (o : os) :
  length (snd (fst (the_read g o))) = Z.to_nat (yuyv_size g).
Proof.
  unfold the_read, sys_read.
  destruct (pending o) as [|[|bs] rest]; cbn [fst snd];
    rewrite ?length_app, ?length_firstn, ?length_skipn, ?repeat_length; lia.
Qed.

(** A chunk at least as long as the request fills the whole buffer. *)
Lemma the_read_full (g : t) (o : os) (bs : list Z) (rest : list chunk) :
  pending o = ReadData bs :: rest ->
  (Z.to_nat (yuyv_size g) <= length bs)%nat ->
  bytes_read g o = yuyv_size g /\
  snd (fst (the_read g o)) = firstn (Z.to_nat (yuyv_size g)) bs.
Proof.
  intros E Hl. pose proof (Capture.yuyv_size_nonneg g).
  unfold bytes_read, the_read, sys_read. rewrite E. cbn [fst snd].
  rewrite Nat.min_r by lia. split; [lia|].
  rewrite skipn_all2 by (rewrite repeat_length; lia).
  apply app_nil_r.
Qed.

(** X8.  With the device open and an even pixel count, a read that finds
    a whole frame of bytes is converted group by group to BT.601 pixels:
    [grabFrame] returns true, the frame has the grabber's dimensions,
    stride [4 * width] and [stride * height] bytes, the same bytes stay in
    the grabber's buffer, and the counter advances. *)
Theorem grabFrame_converts_a_full_read
        (g : t) (out : Frame) (o : os) (bs : list Z) (rest : list chunk)
        (k : nat) :
  0 <= fd_ g -> 0 <= width_ g -> 0 < height_ g ->
  width_ g * height_ g = 2 * Z.of_nat k ->
  width_ g * height_ g * 4 < 2 ^ 32 ->
  length (buffer_ g) = (8 * k)%nat ->
  pending o = ReadData bs :: rest ->
  (4 * k <= length bs)%nat -> Forall is_byte bs ->
  let rgba := flat_map pixels_of (groups_of (firstn (4 * k) bs)) in
  grabFrame g out o
  = Some (true,
          mk (width_ g) (height_ g) (u32 (frame_count_ g + 1)) (fd_ g)
             rgba (device_ g),
          mkFrame (width_ g) (height_ g) (4 * width_ g) rgba,
          after_read g o) /\
  Z.of_nat (length rgba) = 4 * width_ g * height_ g.
Proof.
  intros Hfd HW HH Hk Hs Hbuf Ep Hl Hb rgba.
  assert (Esize : yuyv_size g = 4 * Z.of_nat k).
  { unfold yuyv_size. rewrite Hk.
    rewrite (u32_small (2 * Z.of_nat k)) by lia.
    rewrite u32_small by lia. lia. }
  assert (Hl' : (Z.to_nat (yuyv_size g) <= length bs)%nat) by lia.
  destruct (the_read_full g o bs rest Ep Hl') as [En Ebuf].
  replace (Z.to_nat (yuyv_size g)) with (4 * k)%nat in Ebuf by lia.
  destruct (groups_of_packed k (firstn (4 * k) bs)) as (Gp & Gl & Gb);
    [rewrite length_firstn; lia|].
  assert (Hrgba : length rgba = (8 * k)%nat).
  { unfold rgba.
    assert (L : forall gs, length (flat_map pixels_of gs) = (8 * length gs)%nat).
    { induction gs as [|q gs IH]; [reflexivity|].
      cbn [flat_map]. rewrite length_app, IH, Conversion.pixels_of_length.
      cbn [length]. lia. }
    now rewrite L, Gl. }
  split; [|nia].
  unfold grabFrame. rewrite (proj2 (Z.ltb_ge _ _) Hfd).
  unfold bytes_read, after_read, the_read, yuyv_size in *.
  destruct (sys_read _ _ _ o) as [[n buf] o1]. cbn [fst snd] in *.
  subst n buf. rewrite Z.eqb_refl. cbn [negb].
  unfold yuyv2rgba.
  rewrite <- Gp at 1.
  rewrite (Conversion.yuyv2rgba_from_groups (groups_of (firstn (4 * k) bs)))
    ; [| apply Gb, Forall_front, Hb | lia
       | rewrite u32_small by lia; lia
       | rewrite Gl, u32_small by lia; lia
       | rewrite Gl; lia ].
  rewrite Gl, <- Hbuf, skipn_all, app_nil_r.
  assert (width_ g * 4 <= width_ g * height_ g * 4) by nia.
  rewrite (u32_small (width_ g * 4)) by lia.
  rewrite (Z.mul_comm (width_ g) 4). reflexivity.
Qed.

(** The 2x2 camera of the scenario: eight bytes become four pixels. *)
Lemma grabFrame_converts_a_full_read_witness :
  grabFrame Scenario.opened Scenario.blank Scenario.camera_on
  = Some (true,
          mk 2 2 1 3 [130; 130; 130; 255; 130; 130; 130; 255;
                      255; 225; 20; 255; 255; 225; 20; 255] "/dev/video0",
          mkFrame 2 2 8 [130; 130; 130; 255; 130; 130; 130; 255;
                         255; 225; 20; 255; 255; 225; 20; 255],
          after_read Scenario.opened Scenario.camera_on).
Proof.
  apply (proj1 (grabFrame_converts_a_full_read
                  Scenario.opened Scenario.blank Scenario.camera_on
                  [128; 128; 128; 128; 255; 0; 255; 255]
                  [ReadData [1; 2; 3]] 2
                  ltac:(evaluate) ltac:(evaluate) ltac:(evaluate)
                  ltac:(reflexivity) ltac:(reflexivity) ltac:(reflexivity)
                  ltac:(reflexivity) ltac:(cbn; lia)
                  ltac:(repeat constructor; evaluate))).
Defined.

(** X9.  With an odd pixel count the last trip of the conversion reads
    and writes past both buffers: once the read has delivered the whole
    frame, [grabFrame] has no defined result. *)
Theorem grabFrame_odd_pixel_count (g : t) (out : Frame) (o : os) :
  0 <= fd_ g ->
  Z.odd (u32 (width_ g * height_ g)) = true ->
  bytes_read g o = yuyv_size g ->
  grabFrame g out o = None.
Proof.
  intros Hfd Hodd En. unfold grabFrame.
  rewrite (proj2 (Z.ltb_ge _ _) Hfd).
  pose proof (the_read_length g o) as Hlen.
  unfold bytes_read, the_read, yuyv_size in *.
  destruct (sys_read _ _ _ o) as [[n buf] o1]. cbn [fst snd] in *.
  subst n. rewrite Z.eqb_refl. cbn [negb].
  set (pixels := u32 (width_ g * height_ g)) in *.
  assert (Hp : 0 <= pixels < 2 ^ 32) by (apply Z.mod_pos_bound; lia).
  unfold yuyv2rgba.
  rewrite (fun y r => ConversionFacts.yuyv2rgba_from_short
                        (length y) y r 0 pixels (le_n _) (Z.le_refl 0));
    [reflexivity|lia|].
  unfold Chunks.trips. rewrite Z.sub_0_r.
  left. rewrite Hlen.
  assert (u32 (pixels * 2) <= pixels * 2) by (apply Z.mod_le; lia).
  assert (0 <= u32 (pixels * 2)) by (apply Z.mod_pos_bound; lia).
  apply Z.odd_spec in Hodd. destruct Hodd as [q Hq].
  replace (pixels + 1) with ((q + 1) * 2) by lia.
  rewrite Z.div_mul by lia. lia.
Qed.

(** A 3x3 camera with its 18 bytes ready. *)
Lemma grabFrame_odd_pixel_count_witness :
  grabFrame Scenario.odd_opened Scenario.blank Scenario.odd_on = None.
Proof.
  apply (grabFrame_odd_pixel_count
           Scenario.odd_opened Scenario.blank Scenario.odd_on);
    evaluate.
Defined.

(** The device name [init] works with. *)
Lemma init_unfold (source : option string) (g : t) (o : os) :
  init source g o
  = let g0 := mk (width_ g) (height_ g) (frame_count_ g) (fd_ g) (buffer_ g)
                 (match source with Some s => s | None => device_ g end) in
    let '(ok, g1, o1) := initV4L2 g0 o in
    if ok then (Returns tt, g1, o1)
    else (Throws "V4L2 initialization failed", g1, o1).
Proof. unfold init. destruct source, g; reflexivity. Qed.

Ltac conjs := repeat match goal with |- _ /\ _ => split end.

Ltac v4l2_cases o dev W H :=
  unfold initV4L2, sys_open, sys_ioctl_querycap, sys_ioctl_s_fmt, sys_close;
  cbn [fst snd with_fd logged width_ height_ frame_count_ fd_ buffer_ device_
       querycap s_fmt open_result calls pending];
  destruct (Z.ltb_spec (open_result o dev) 0) as [Hopen|Hopen];
  [|destruct (Z.ltb_spec (fst (querycap o)) 0) as [Hq|Hq];
    [|destruct (Z.eqb_spec (Z.land (snd (querycap o)) V4L2_CAP_VIDEO_CAPTURE) 0)
        as [Hcap|Hcap];
      [|destruct (s_fmt o W H) as [ret [pw ph]] eqn:Es; cbn [fst snd];
        destruct (Z.ltb_spec ret 0) as [Hf|Hf]]]].

(** X10.  When [init] throws, the message is "V4L2 initialization
    failed", the grabber is left with a negative descriptor and its
    dimensions and buffer as they were, a device that had been opened has
    been closed again as the last system call, and every later [grabFrame]
    returns false without touching the system. *)
Theorem init_failure_closes_the_device
        (source : option string) (g g' : t) (o o' : os) (what : string) :
  init source g o = (Throws what, g', o') ->
  let dev := match source with Some s => s | None => device_ g end in
  what = "V4L2 initialization failed"%string /\
  fd_ g' < 0 /\
  width_ g' = width_ g /\ height_ g' = height_ g /\
  buffer_ g' = buffer_ g /\
  (open_result o dev < 0 -> calls o' = calls o ++ [SysOpen dev]) /\
  (0 <= open_result o dev ->
   exists mid,
     calls o' = calls o ++ SysOpen dev :: mid
                        ++ [SysClose (open_result o dev)]) /\
  forall out, grabFrame g' out o' = Some (false, g', out, o').
Proof.
  rewrite init_unfold. cbv zeta.
  set (dev := match source with Some s => s | None => device_ g end).
  v4l2_cases o dev (width_ g) (height_ g);
    try (destruct (negb (pw =? width_ g) || negb (ph =? height_ g));
         discriminate);
    intros [= <- <- <-]; unfold with_fd, logged;
    cbn [fd_ width_ height_ buffer_ calls];
    conjs; try assumption; try reflexivity; try lia;
    try (intros out; apply Capture.grabFrame_closed; cbn [fd_]; lia);
    intros _.
  - exists [SysIoctl (open_result o dev) VIDIOC_QUERYCAP].
    rewrite <- !app_assoc. reflexivity.
  - exists [SysIoctl (open_result o dev) VIDIOC_QUERYCAP].
    rewrite <- !app_assoc. reflexivity.
  - exists [SysIoctl (open_result o dev) VIDIOC_QUERYCAP;
            SysIoctl (open_result o dev) (VIDIOC_S_FMT (width_ g) (height_ g))].
    rewrite <- !app_assoc. reflexivity.
Qed.

(** A device that is no capture device: opened, queried, closed. *)
Lemma init_failure_closes_the_device_witness :
  exists g' o',
    init None Scenario.webcam Scenario.not_a_camera
    = (Throws "V4L2 initialization failed", g', o') /\
    fd_ g' < 0 /\
    calls o' = [SysOpen "/dev/video0"; SysIoctl 3 VIDIOC_QUERYCAP; SysClose 3].
Proof.
  eexists _, _. split; [vm_compute; reflexivity|].
  split.
  - apply (init_failure_closes_the_device
             None Scenario.webcam _ Scenario.not_a_camera _ _
             ltac:(vm_compute; reflexivity)).
  - reflexivity.
Defined.

(** X11.  [init] returns exactly when the device can be opened, answers
    the capability query, reports video capture, and accepts the format
    request; it has then issued these three calls and no other, holds the
    descriptor, and has read nothing. *)
Theorem init_succeeds_iff (source : option string) (g : t) (o : os) :
  let dev := match source with Some s => s | None => device_ g end in
  let fd := open_result o dev in
  let accepted :=
    0 <= fd /\ 0 <= fst (querycap o) /\
    Z.land (snd (querycap o)) V4L2_CAP_VIDEO_CAPTURE <> 0 /\
    0 <= fst (s_fmt o (width_ g) (height_ g)) in
  (accepted -> exists g' o', init source g o = (Returns tt, g', o')) /\
  (forall g' o',
      init source g o = (Returns tt, g', o') ->
      accepted /\ fd_ g' = fd /\ device_ g' = dev /\
      frame_count_ g' = frame_count_ g /\
      pending o' = pending o /\
      calls o' = calls o ++ [SysOpen dev; SysIoctl fd VIDIOC_QUERYCAP;
                              SysIoctl fd (VIDIOC_S_FMT (width_ g) (height_ g))]).
Proof.
  cbv zeta. rewrite init_unfold. cbv zeta.
  set (dev := match source with Some s => s | None => device_ g end).
  split.
  - intros (Ho & Hq' & Hc & Hf').
    v4l2_cases o dev (width_ g) (height_ g); try lia; try contradiction.
    + cbn [fst] in Hf'. lia.
    + destruct (negb (pw =? width_ g) || negb (ph =? height_ g));
        eexists _, _; reflexivity.
  - intros g' o'.
    v4l2_cases o dev (width_ g) (height_ g); try discriminate.
    destruct (negb (pw =? width_ g) || negb (ph =? height_ g));
      intros [= <- <-]; unfold with_fd, logged; cbn [fd_ device_ frame_count_ pending calls];
      rewrite <- ?app_assoc; conjs; try assumption; try reflexivity.
Qed.

(** The camera of the scenario. *)
Lemma init_succeeds_iff_witness :
  exists g' o',
    init None Scenario.webcam Scenario.camera = (Returns tt, g', o').
Proof.
  apply (proj1 (init_succeeds_iff None Scenario.webcam Scenario.camera)).
  evaluate.
Defined.

(** X12.  [cleanup] closes an open descriptor exactly once and issues no
    other call, leaves the descriptor negative and the buffer empty, and
    keeps the dimensions; a second [cleanup] changes nothing, and
    [grabFrame] afterwards returns false without a system call. *)
Theorem cleanup_ends_the_session (g : t) (o : os) :
  let g1 := fst (cleanup g o) in
  let o1 := snd (cleanup g o) in
  fd_ g1 < 0 /\ buffer_ g1 = [] /\
  width_ g1 = width_ g /\ height_ g1 = height_ g /\
  calls o1 = calls o ++ (if 0 <=? fd_ g then [SysClose (fd_ g)] else []) /\
  pending o1 = pending o /\
  cleanup g1 o1 = (g1, o1) /\
  forall out, grabFrame g1 out o1 = Some (false, g1, out, o1).
Proof.
  cbv zeta. unfold cleanup.
  destruct (Z.leb_spec 0 (fd_ g)) as [Hfd|Hfd];
    cbn [fst snd fd_ buffer_ width_ height_ sys_close logged calls pending].
  - conjs; try reflexivity; try lia;
      try (intros out; apply Capture.grabFrame_closed; cbn [fd_]; lia).
  - rewrite app_nil_r.
    conjs; try reflexivity; try lia;
      try (intros out; apply Capture.grabFrame_closed; cbn [fd_]; lia).
    rewrite (proj2 (Z.leb_gt 0 (fd_ g)) Hfd). reflexivity.
Qed.

End SessionFacts.

(** ** The compute resources: ownership, start-up, descriptor sets *)

Module PipelineFacts.
Import Vk Asset ComputePipeline Lifecycle Ownership.
Local Open Scope pipe_scope.

Lemma keeps_const {A : Type} (I : world -> Prop) (r : outcome A) :
  keeps I (fun w => (r, w)).
Proof. intros w r' w' Hw [= _ <-]. exact Hw. Qed.

Lemma keeps_bind {A B : Type} (I : world -> Prop) (c : M A) (k : A -> M B) :
  keeps I c -> (forall a, keeps I (k a)) -> keeps I (bind c k).
Proof.
  intros Hc Hk w r w' Hw. unfold bind.
  destruct (c w) as [[a|what|] w1] eqn:E.
  - apply (Hk a). apply (Hc _ _ _ Hw E).
  - intros [= _ <-]. apply (Hc _ _ _ Hw E).
  - intros [= _ <-]. apply (Hc _ _ _ Hw E).
Qed.

Lemma keeps_check (I : world -> Prop) (ok : bool) (what : string) :
  keeps I (check ok what).
Proof. destruct ok; apply keeps_const. Qed.

(** Nothing created, nothing released, no member changed. *)
Lemma owned_same (d0 : list handle) (p p' : t) (d d' : driver) :
  owned d0 (p, d) ->
  handles p' = handles p -> next d' = next d ->
  created (log d') = created (log d) ->
  destroyed (log d') = destroyed (log d) ->
  owned d0 (p', d').
Proof.
  intros (H1 & H2 & H3) Eh En Ec Ed.
  unfold owned, get in *. cbn [fst snd] in *.
  rewrite Eh, En, Ec, Ed. auto.
Qed.

(** The next handle of the device goes to the member [m]. *)
Lemma owned_extend (d0 : list handle) (m : member) (p : t) (d d' : driver) :
  owned d0 (p, d) ->
  next d' = Pos.succ (next d) ->
  created (log d') = created (log d) ++ [Z.pos (next d)] ->
  destroyed (log d') = destroyed (log d) ->
  owned d0 (set m (Z.pos (next d)) p, d').
Proof.
  intros (H1 & H2 & H3) En Ec Ed. cbn [fst snd] in H1, H2, H3.
  unfold owned. cbn [fst snd]. rewrite En, Ec, Ed, Pos2Z.inj_succ.
  assert (F : forall m', m' <> m ->
                get m' (set m (Z.pos (next d)) p) = get m' p)
    by (intros; apply Teardown.get_set_other; congruence).
  split; [|split; [|assumption]].
  - intros m' Hm'. destruct (member_eq_dec m' m) as [->|N].
    + rewrite Teardown.get_set_same. split; [lia|].
      apply in_or_app. right. now left.
    + rewrite (F m' N) in *. destruct (H1 m' Hm') as [? ?].
      split; [lia|]. apply in_or_app. now left.
  - intros m1 m2 N12 Hm1.
    destruct (member_eq_dec m1 m) as [->|N1];
      destruct (member_eq_dec m2 m) as [->|N2]; try congruence.
    + rewrite Teardown.get_set_same, (F m2 N2).
      destruct (Z.eq_dec (get m2 p) VK_NULL_HANDLE) as [E|E];
        [rewrite E; discriminate|].
      destruct (H1 m2 E). lia.
    + rewrite Teardown.get_set_same, (F m1 N1) in *.
      destruct (H1 m1 Hm1). lia.
    + rewrite (F m1 N1), (F m2 N2) in *. now apply H2.
Qed.

Lemma owned_vk_create (d0 : list handle) (o : object) (m : member) :
  keeps (owned d0) (vk_create o m).
Proof.
  intros [p d] r w' Ho. unfold vk_create, create.
  destruct (accepts d (ncalls d)); intros [= _ <-].
  - apply owned_extend; try assumption; try reflexivity.
    cbn [log]. rewrite Teardown.created_app. reflexivity.
    cbn [log]. rewrite Teardown.destroyed_app. cbn. now rewrite app_nil_r.
  - apply (owned_same d0 p p d); try assumption; reflexivity.
Qed.

Lemma owned_tell (d0 : list handle) (e : event) :
  (forall o h, e <> Created o h) -> (forall o h, e <> Destroyed o h) ->
  keeps (owned d0) (tell e).
Proof.
  intros NC ND [p d] r w' Ho. unfold tell, emit. intros [= _ <-].
  apply (owned_same d0 p p d); try assumption; try reflexivity; cbn [log].
  - rewrite Teardown.created_app.
    destruct e; try (now exfalso; eapply NC); cbn; now rewrite app_nil_r.
  - rewrite Teardown.destroyed_app.
    destruct e; try (now exfalso; eapply ND); cbn; now rewrite app_nil_r.
Qed.

Lemma keeps_both (I : world -> Prop) (a b : M bool) :
  keeps I a -> keeps I b -> keeps I (both a b).
Proof.
  intros Ha Hb. unfold both. apply keeps_bind; [exact Ha|].
  intros [|]; [exact Hb|apply keeps_const].
Qed.

Ltac keep_all :=
  first [ apply keeps_both; keep_all
        | apply owned_vk_create
        | apply keeps_check
        | apply owned_tell; discriminate
        | apply keeps_const
        | apply keeps_bind; [keep_all | intros; keep_all] ].

Lemma owned_createImages (d0 : list handle) : keeps (owned d0) createImages.
Proof. unfold createImages. keep_all. Qed.

Lemma owned_createStagingBuffer (d0 : list handle) :
  keeps (owned d0) createStagingBuffer.
Proof.
  unfold createStagingBuffer.
  apply keeps_bind; [|intros; keep_all].
  intros w r w' Ho [= _ <-]. exact Ho.
Qed.

Lemma owned_createShaderModule (d0 : list handle) (fs : files) :
  keeps (owned d0) (createShaderModule fs).
Proof. unfold createShaderModule, lift. keep_all. Qed.

Lemma owned_create_checked (d0 : list handle) (o : object) (m : member)
      (what : string) :
  keeps (owned d0) (ok <- vk_create o m ;; check ok what).
Proof.
  apply keeps_bind; [apply owned_vk_create|intros; apply keeps_check].
Qed.

Lemma owned_allocateDescriptorSets (d0 : list handle) :
  keeps (owned d0) allocateDescriptorSets.
Proof.
  unfold allocateDescriptorSets.
  apply keeps_bind; [|intros; apply keeps_check].
  intros [p d] r w' Ho. unfold create2.
  destruct (accepts d (ncalls d)); intros [= _ <-].
  - pose (d1 := mkDriver (Pos.succ (next d)) (accepts d) (ncalls d)
                         (log d ++ [Created DescriptorSet (Z.pos (next d))])).
    assert (O1 : owned d0 (set descriptor_sets_0 (Z.pos (next d)) p, d1)).
    { apply owned_extend; try assumption; try reflexivity; cbn [log d1].
      - now rewrite Teardown.created_app.
      - rewrite Teardown.destroyed_app. cbn. now rewrite app_nil_r. }
    change (Z.pos (Pos.succ (next d))) with (Z.pos (next d1)).
    apply owned_extend; try assumption; try reflexivity; cbn [log d1].
    + rewrite !Teardown.created_app. cbn [created].
      now rewrite <- app_assoc.
    + rewrite !Teardown.destroyed_app. cbn. now rewrite !app_nil_r.
  - apply (owned_same d0 p p d); try assumption; reflexivity.
Qed.

Lemma owned_updateDescriptorSets (d0 : list handle) :
  keeps (owned d0) updateDescriptorSets.
Proof.
  unfold updateDescriptorSets.
  apply keeps_bind; [|intros _];
    intros [p d] r w' Ho; unfold updateDescriptorSet, emit;
    intros [= _ <-];
    apply (owned_same d0 p p d); try assumption; try reflexivity; cbn [log];
    rewrite ?Teardown.created_app, ?Teardown.destroyed_app; cbn;
    now rewrite !app_nil_r.
Qed.

(** [init] keeps ownership, whether it returns or throws. *)
Lemma owned_init (d0 : list handle) (fs : files) (W H : Z) :
  keeps (owned d0) (init fs W H).
Proof.
  unfold init.
  apply keeps_bind; [|intros _].
  { intros [p d] r w' Ho [= _ <-].
    apply (owned_same d0 p _ d); try assumption; reflexivity. }
  apply keeps_bind; [apply owned_createImages|intros _].
  apply keeps_bind; [apply owned_createStagingBuffer|intros _].
  apply keeps_bind; [apply owned_createShaderModule|intros _].
  apply keeps_bind; [apply owned_create_checked|intros _].
  apply keeps_bind; [apply owned_create_checked|intros _].
  apply keeps_bind; [apply owned_create_checked|intros _].
  apply keeps_bind; [apply owned_create_checked|intros _].
  apply keeps_bind; [apply owned_allocateDescriptorSets|intros _].
  apply keeps_bind; [apply owned_updateDescriptorSets|intros _].
  apply keeps_bind; [apply owned_create_checked|intros _].
  apply owned_create_checked.
Qed.

Lemma release_order_NoDup : NoDup release_order.
Proof. unfold release_order. repeat constructor; cbn; intuition discriminate. Qed.

Lemma new_is_owned (d : driver) : owned (destroyed (log d)) (new, d).
Proof.
  unfold owned. cbn [fst snd]. repeat split.
  - exfalso. apply H. reflexivity.
  - exfalso. apply H. reflexivity.
  - intros m1 m2 _ H. exfalso. apply H. reflexivity.
Qed.

(** Distinct members holding distinct handles give a teardown list without
    repetition. *)
Lemma owned_live (d0 : list handle) (w : world) :
  owned d0 w ->
  NoDup (live (fst w)) /\
  forall h, In h (live (fst w)) ->
            h <> VK_NULL_HANDLE /\ In h (created (log (snd w))).
Proof.
  intros (H1 & H2 & _). unfold live. split.
  - generalize release_order_NoDup.
    induction release_order as [|m ms IH]; intros ND; [constructor|].
    inversion ND as [|? ? Hm Hms]; subst. cbn [map filter].
    destruct (Z.eqb_spec (get m (fst w)) VK_NULL_HANDLE) as [E|E]; cbn [negb];
      [now apply IH|].
    constructor; [|now apply IH].
    intros I. apply filter_In in I. destruct I as [I _].
    apply in_map_iff in I. destruct I as (m2 & E2 & I2).
    apply (H2 m m2); [|assumption|now symmetry].
    intros ->. contradiction.
  - intros h I. apply filter_In in I. destruct I as [I N].
    apply in_map_iff in I. destruct I as (m & <- & _).
    assert (get m (fst w) <> VK_NULL_HANDLE).
    { intros E. rewrite E in N. discriminate. }
    split; [assumption|]. now apply H1.
Qed.

(** X13.  However [init] ends, by returning or by throwing after any
    number of creations, the teardown that follows releases only handles
    the device created, none of them twice, and nothing was released
    before it. *)
Theorem teardown_after_any_init
        (fs : files) (W H : Z) (d : driver) (r : outcome unit) (w' : world) :
  init fs W H (new, d) = (r, w') -> r <> Undefined ->
  exists d2,
    cleanup w' = (Returns tt, (fst w', d2)) /\
    destroyed (log d2) = destroyed (log d) ++ live (fst w') /\
    NoDup (live (fst w')) /\
    forall h, In h (live (fst w')) ->
              h <> VK_NULL_HANDLE /\ In h (created (log (snd w'))).
Proof.
  intros E _.
  pose proof (owned_init _ fs W H _ _ _ (new_is_owned d) E) as O.
  destruct (owned_live _ _ O) as [ND HI].
  destruct O as (_ & _ & Hd).
  destruct w' as [p1 d1]. cbn [fst snd] in *.
  destruct (Teardown.cleanup_spec p1 d1) as (d2 & E2 & D2 & _).
  exists d2. rewrite D2, Hd. auto.
Qed.

(** The device that refuses the first memory allocation: the two images
    exist, and are what the teardown releases. *)
Lemma teardown_after_any_init_witness :
  exists w' d2,
    init Scenario.fs_aligned 2 2 (new, Scenario.grudging)
    = (Throws "Failed to allocate image memory", w') /\
    cleanup w' = (Returns tt, (fst w', d2)) /\
    destroyed (log d2) = [1; 2].
Proof.
  assert (E : init Scenario.fs_aligned 2 2 (new, Scenario.grudging)
              = (Throws "Failed to allocate image memory",
                 snd (init Scenario.fs_aligned 2 2 (new, Scenario.grudging))))
    by (vm_compute; reflexivity).
  destruct (teardown_after_any_init _ _ _ _ _ _ E ltac:(discriminate))
    as (d2 & Ec & Ed & _).
  eexists _, d2. split; [exact E|]. split; [exact Ec|].
  rewrite Ed. vm_compute. reflexivity.
Defined.

Lemma succeeds_bind {A B : Type} (Q : A -> Prop) (R : B -> Prop)
      (c : M A) (k : A -> M B) :
  succeeds Q c -> (forall a, Q a -> succeeds R (k a)) ->
  succeeds R (bind c k).
Proof.
  intros Hc Hk w Hw. destruct (Hc w Hw) as (a & w1 & E & Qa & Hw1).
  unfold bind. rewrite E. now apply Hk.
Qed.

Lemma succeeds_vk_create (o : object) (m : member) :
  succeeds (fun ok => ok = true) (vk_create o m).
Proof.
  intros [p d] Hd. unfold vk_create, create. cbn [snd] in Hd. rewrite Hd.
  eexists _, _. split; [reflexivity|]. split; [reflexivity|exact Hd].
Qed.

Lemma succeeds_check (what : string) :
  succeeds (fun _ => True) (check true what).
Proof. intros w Hw. exists tt, w. auto. Qed.

Lemma succeeds_both (a b : M bool) :
  succeeds (fun ok => ok = true) a -> succeeds (fun ok => ok = true) b ->
  succeeds (fun ok => ok = true) (both a b).
Proof.
  intros Ha Hb. unfold both. apply (succeeds_bind _ _ _ _ Ha).
  intros ok ->. exact Hb.
Qed.

Lemma succeeds_checked (c : M bool) (what : string) :
  succeeds (fun ok => ok = true) c ->
  succeeds (fun _ : unit => True) (ok <- c ;; check ok what).
Proof.
  intros Hc. apply (succeeds_bind _ _ _ _ Hc).
  intros ok ->. apply succeeds_check.
Qed.

Lemma succeeds_then {A : Type} (Q : A -> Prop) (c : M unit) (k : M A) :
  succeeds (fun _ => True) c -> succeeds Q k ->
  succeeds Q (c ;;; k).
Proof. intros Hc Hk. apply (succeeds_bind _ _ _ _ Hc). intros _ _. exact Hk. Qed.

Lemma succeeds_tell (e : event) : succeeds (fun _ => True) (tell e).
Proof. intros [p d] Hd. eexists _, _. split; [reflexivity|]. split; [exact I|exact Hd]. Qed.

Lemma succeeds_init (fs : files) (W H : Z) (code : list Z) :
  readShaderFile fs "shaders/pixelation.comp.spv" = Returns code ->
  succeeds (fun _ => True) (init fs W H).
Proof.
  intros Hcode. unfold init.
  apply succeeds_then.
  { intros [p d] Hd. eexists _, _. split; [reflexivity|]. split; [exact I|exact Hd]. }
  apply succeeds_then.
  { unfold createImages.
    apply (succeeds_bind (fun ok => ok = true));
      [apply succeeds_both; apply succeeds_vk_create|intros ok ->].
    apply succeeds_then; [apply succeeds_check|].
    apply (succeeds_bind (fun ok => ok = true));
      [apply succeeds_both; apply succeeds_vk_create|intros ok ->].
    apply succeeds_then; [apply succeeds_check|].
    apply (succeeds_bind (fun ok => ok = true));
      [apply succeeds_vk_create|intros ok ->].
    apply succeeds_then; [apply succeeds_check|].
    apply succeeds_checked, succeeds_vk_create. }
  apply succeeds_then.
  { unfold createStagingBuffer.
    apply (succeeds_bind (fun _ => True)).
    { intros w Hw. eexists _, w. split; [reflexivity|]. split; [exact I|exact Hw]. }
    intros size _.
    apply succeeds_then; [apply succeeds_tell|].
    apply (succeeds_bind (fun ok => ok = true));
      [apply succeeds_vk_create|intros ok ->].
    apply succeeds_then; [apply succeeds_check|].
    apply succeeds_checked, succeeds_vk_create. }
  apply succeeds_then.
  { unfold createShaderModule.
    apply (succeeds_bind (fun _ => True)).
    { intros w Hw. unfold lift. rewrite Hcode.
      eexists _, w. split; [reflexivity|]. split; [exact I|exact Hw]. }
    intros c _.
    apply succeeds_then; [apply succeeds_tell|].
    apply succeeds_checked, succeeds_vk_create. }
  apply succeeds_then; [apply succeeds_checked, succeeds_vk_create|].
  apply succeeds_then; [apply succeeds_checked, succeeds_vk_create|].
  apply succeeds_then; [apply succeeds_checked, succeeds_vk_create|].
  apply succeeds_then; [apply succeeds_checked, succeeds_vk_create|].
  apply succeeds_then.
  { unfold allocateDescriptorSets.
    apply succeeds_checked.
    intros [p d] Hd. unfold create2. cbn [snd] in Hd. rewrite Hd.
    eexists _, _. split; [reflexivity|]. split; [reflexivity|exact Hd]. }
  apply succeeds_then.
  { intros w Hw. rewrite Teardown.updateDescriptorSets_eq.
    eexists _, _. split; [reflexivity|]. split; [exact I|].
    destruct w. exact Hw. }
  apply succeeds_then; [apply succeeds_checked, succeeds_vk_create|].
  apply succeeds_checked, succeeds_vk_create.
Qed.

(** X14.  On a device that refuses no creating call and with a shader file
    that loads, [init] returns: the members hold seventeen fresh handles,
    numbered in creation order from the device's next one, the dimensions
    are stored, these seventeen are all the device created meanwhile, and
    nothing was released. *)
Theorem init_returns_on_a_willing_device
        (fs : files) (W H : Z) (p : t) (d : driver) (code : list Z) :
  never_refuses d ->
  readShaderFile fs "shaders/pixelation.comp.spv" = Returns code ->
  exists p1 d1,
    init fs W H (p, d) = (Returns tt, (p1, d1)) /\
    width_ p1 = W /\ height_ p1 = H /\
    map (fun m => get m p1) creation_order
    = map (fun k => Z.pos (next d) + k) (zrange 0 17) /\
    created (log d1)
    = created (log d) ++ map (fun m => get m p1) creation_order /\
    destroyed (log d1) = destroyed (log d).
Proof.
  intros Hd Hcode.
  destruct (succeeds_init fs W H code Hcode (p, d) Hd) as ([] & [p1 d1] & E & _).
  exists p1, d1. split; [exact E|].
  apply Teardown.init_inv in E. destruct E as (code' & _ & E).
  pose proof (Teardown.initialised_handles W H code' p d) as F.
  rewrite <- E in F. destruct F as (_ & Hh & Hc & Hdd & HW & HH).
  cbn [fst snd] in *. auto 10.
Qed.

(** The device of the scenario and its two-word shader. *)
Lemma init_returns_on_a_willing_device_witness :
  exists p1 d1,
    init Scenario.fs_aligned 2 2 (new, Scenario.willing)
    = (Returns tt, (p1, d1)) /\
    width_ p1 = 2 /\ height_ p1 = 2 /\
    map (fun m => get m p1) creation_order
    = [1; 2; 3; 4; 5; 6; 7; 8; 9; 10; 11; 12; 13; 14; 15; 16; 17].
Proof.
  destruct (init_returns_on_a_willing_device
              Scenario.fs_aligned 2 2 new Scenario.willing
              [119734787; 65536]
              ltac:(intros n; reflexivity) ltac:(reflexivity))
    as (p1 & d1 & E & HW & HH & Hm & _).
  exists p1, d1. auto.
Defined.

Lemma u32_parity (i : Z) : u32 i mod 2 = i mod 2.
Proof.
  unfold u32. apply Z.mod_mod_divide. exists (2 ^ 31). reflexivity.
Qed.

Lemma even_mod2 (i : Z) : (i mod 2 =? 0) = Z.even i.
Proof.
  symmetry. apply Zeven_mod.
Qed.

(** X15.  [getDescriptorSet] selects by the parity of the frame index:
    slot 0 for even indices, slot 1 for odd ones, so successive indices
    alternate, also when the 32-bit index wraps from 2^32 - 1 to 0. *)
Theorem getDescriptorSet_alternates (p : t) (i : Z) :
  getDescriptorSet p i
  = (if Z.even i then get descriptor_sets_0 p else get descriptor_sets_1 p) /\
  getDescriptorSet p (u32 (i + 1))
  = (if Z.even i then get descriptor_sets_1 p else get descriptor_sets_0 p) /\
  getDescriptorSet p (2 ^ 32 - 1) = get descriptor_sets_1 p /\
  getDescriptorSet p (u32 (2 ^ 32 - 1 + 1)) = get descriptor_sets_0 p.
Proof.
  unfold getDescriptorSet.
  rewrite u32_parity, (u32_parity (u32 (i + 1))), (u32_parity (i + 1)).
  rewrite !even_mod2, Z.even_add.
  destruct (Z.even i); repeat split; reflexivity.
Qed.

Lemma writes_app (l l' : list event) : writes (l ++ l') = writes l ++ writes l'.
Proof.
  induction l as [|[] l IH]; cbn [writes app]; rewrite ?IH; reflexivity.
Qed.

Lemma writes_grant (o : object) (m : member) (w : world) :
  writes (log (snd (grant o m w))) = writes (log (snd w)).
Proof.
  unfold grant, made. cbn [snd log]. rewrite writes_app. cbn.
  now rewrite app_nil_r.
Qed.

Lemma writes_grant_sets (w : world) :
  writes (log (snd (grant_sets w))) = writes (log (snd w)).
Proof.
  unfold grant_sets. cbn [snd log]. rewrite writes_app. cbn.
  now rewrite app_nil_r.
Qed.

Lemma writes_told (e : event) (w : world) :
  (forall s b v, e <> DescriptorWrite s b v) ->
  writes (log (snd (told e w))) = writes (log (snd w)).
Proof.
  intros N. unfold told, emit. cbn [snd log]. rewrite writes_app.
  destruct e; try (now exfalso; eapply N); cbn; now rewrite app_nil_r.
Qed.

Lemma writes_written (slot : member) (w : world) :
  writes (log (snd (written slot w)))
  = writes (log (snd w))
    ++ [(get slot (fst w), 0, get input_image_view_ (fst w));
        (get slot (fst w), 1, get output_image_view_ (fst w))] /\
  fst (written slot w) = fst w.
Proof.
  unfold written, told, emit. cbn [fst snd log]. split; [|reflexivity].
  rewrite !writes_app. cbn [writes]. now rewrite <- app_assoc.
Qed.

Lemma get_grant (x m : member) (o : object) (w : world) :
  m <> x -> get x (fst (grant o m w)) = get x (fst w).
Proof. intros N. unfold grant. cbn [fst]. now apply Teardown.get_set_other. Qed.

(** X16.  After an [init] that returned, exactly four descriptor updates
    have been recorded: each of the two descriptor sets got the input view
    at binding 0 and the output view at binding 1.  The two sets are
    distinct handles, but both refer to the same pair of image views. *)
Theorem both_slots_view_the_same_images
        (fs : files) (W H : Z) (w : world) (p1 : t) (d1 : driver) :
  init fs W H w = (Returns tt, (p1, d1)) ->
  let s0 := get descriptor_sets_0 p1 in
  let s1 := get descriptor_sets_1 p1 in
  let iv := get input_image_view_ p1 in
  let ov := get output_image_view_ p1 in
  writes (log d1)
  = writes (log (snd w)) ++ [(s0, 0, iv); (s0, 1, ov); (s1, 0, iv); (s1, 1, ov)] /\
  s0 <> s1 /\ iv <> ov /\
  getDescriptorSet p1 0 = s0 /\ getDescriptorSet p1 1 = s1.
Proof.
  intros E. apply Teardown.init_inv in E. destruct E as (code & _ & E).
  destruct w as [p d].
  pose proof (Teardown.initialised_handles W H code p d) as (_ & Hh & _).
  rewrite <- E in Hh. cbn [fst] in Hh.
  cbn [map creation_order image_members staging_members late_members app
       length zrange] in Hh.
  injection Hh as _ _ _ _ Hiv Hov _ _ _ _ _ _ _ Hs0 Hs1 _ _.
  cbv zeta. split; [|split; [lia|split; [lia|split; reflexivity]]].
  assert (E1 : p1 = fst (initialised_from W H code (p, d))) by now rewrite <- E.
  assert (E2 : d1 = snd (initialised_from W H code (p, d))) by now rewrite <- E.
  rewrite E1, E2. unfold initialised_from. cbv zeta.
  rewrite !get_grant by discriminate.
  rewrite !writes_grant.
  rewrite !(proj2 (writes_written _ _)).
  rewrite (proj1 (writes_written descriptor_sets_1 _)).
  rewrite (proj2 (writes_written descriptor_sets_0 _)).
  rewrite (proj1 (writes_written descriptor_sets_0 _)).
  rewrite writes_grant_sets, !writes_grant.
  rewrite writes_told by discriminate.
  rewrite !writes_grant.
  rewrite writes_told by discriminate.
  rewrite !writes_grant.
  cbn [snd]. rewrite <- app_assoc. reflexivity.
Qed.

(** The 2x2 pipeline of the scenario: sets 14 and 15, views 5 and 6. *)
Lemma both_slots_view_the_same_images_witness :
  writes (log (snd Scenario.initialised))
  = [(14, 0, 5); (14, 1, 6); (15, 0, 5); (15, 1, 6)].
Proof.
  assert (E : init Scenario.fs_aligned 2 2 (new, Scenario.willing)
              = (Returns tt, (fst Scenario.initialised,
                              snd Scenario.initialised)))
    by (vm_compute; reflexivity).
  destruct (both_slots_view_the_same_images _ _ _ _ _ _ E) as (Hw & _).
  rewrite Hw. vm_compute. reflexivity.
Defined.

(** X17.  For a readable shader file whose size is not a multiple of
    four, [readShaderFile] reads the whole file into a vector of
    [size / 4] words and so writes past its end: it has no defined
    result, whatever the contents, and neither has the
    [createShaderModule] that called it.  No error is raised; what the
    execution does after the overrun is not determined. *)
Theorem unaligned_shader_is_read_past_the_vector
        (fs : files) (contents : list Z) (w : world) :
  fs "shaders/pixelation.comp.spv"%string = Some contents ->
  (length contents mod 4 <> 0)%nat ->
  readShaderFile fs "shaders/pixelation.comp.spv" = Undefined /\
  fst (createShaderModule fs w) = Undefined.
Proof.
  intros E Ha.
  pose proof (Loading.readShaderFile_unaligned fs _ contents E Ha) as R.
  split; [exact R|].
  unfold createShaderModule, bind, lift. now rewrite R.
Qed.

(** A shader file of five bytes. *)
Lemma unaligned_shader_is_read_past_the_vector_witness :
  readShaderFile Scenario.fs_unaligned "shaders/pixelation.comp.spv"
  = Undefined /\
  fst (createShaderModule Scenario.fs_unaligned (new, Scenario.willing))
  = Undefined.
Proof.
  apply (unaligned_shader_is_read_past_the_vector
           Scenario.fs_unaligned [3; 2; 35; 7; 9] (new, Scenario.willing));
    evaluate.
Defined.

End PipelineFacts.

(** ** The per-frame loop and the process *)

Module OrchestratorFacts.
Import Vk Asset ComputePipeline Lifecycle Ownership ObscuraRT Orchestrator
       Dimensions.

Lemma u32_succ (c : Z) : u32 (u32 c + 1) = u32 (c + 1).
Proof. unfold u32. now rewrite Z.add_mod_idemp_l by lia. Qed.

(** [n] trips of the loop on a source whose frames fill the mapping. *)
Lemma run_loop_uploads (W H : Z) (n : nat) :
  fits W H ->
  forall (frame_count c : Z) (mapped : list Z),
    length mapped = length (FrameGrabber.pattern W H) ->
    run_loop n frame_count (FrameGrabber.mk W H c) mapped
    = Returns (frame_count + Z.of_nat n,
               FrameGrabber.mk W H (Nat.iter n (fun c => u32 (c + 1)) c),
               match n with O => mapped | S _ => FrameGrabber.pattern W H end).
Proof.
  intros F. induction n as [|n IH]; intros frame_count c mapped Hl.
  - cbn [run_loop Z.of_nat]. now rewrite Z.add_0_r.
  - cbn [run_loop].
    rewrite (TestPattern.grabFrame_pattern (FrameGrabber.mk W H c) _ F).
    cbn [FrameGrabber.width_ FrameGrabber.height_ FrameGrabber.frame_count_].
    unfold upload. cbn [data].
    rewrite Loading.copy_into_exact by (symmetry; exact Hl).
    rewrite IH by reflexivity.
    rewrite Nat2Z.inj_succ.
    replace (frame_count + 1 + Z.of_nat n)
      with (frame_count + Z.succ (Z.of_nat n)) by lia.
    rewrite Nat.iter_succ_r.
    now destruct n.
Qed.

Lemma iter_count (n : nat) (c : Z) :
  Nat.iter n (fun c => u32 (c + 1)) (u32 c) = u32 (c + Z.of_nat n).
Proof.
  induction n as [|n IH].
  - cbn. now rewrite Z.add_0_r.
  - rewrite Nat.iter_succ, IH, u32_succ, Nat2Z.inj_succ. f_equal. lia.
Qed.

(** X18.  With a test-pattern source whose frame has exactly the size of
    the mapped staging memory, [run] makes all 300 trips: it returns with
    [frame_count = 300], the source has counted 300 frames more, and the
    staging memory holds one whole frame of the pattern. *)
Theorem run_uploads_300_frames (fg : FrameGrabber.t) (mapped : list Z) :
  fits (FrameGrabber.width_ fg) (FrameGrabber.height_ fg) ->
  0 <= FrameGrabber.frame_count_ fg < 2 ^ 32 ->
  Z.of_nat (length mapped)
  = 4 * FrameGrabber.width_ fg * FrameGrabber.height_ fg ->
  run fg mapped
  = Returns (300,
             FrameGrabber.mk (FrameGrabber.width_ fg) (FrameGrabber.height_ fg)
                             (u32 (FrameGrabber.frame_count_ fg + 300)),
             FrameGrabber.pattern (FrameGrabber.width_ fg)
                                  (FrameGrabber.height_ fg)).
Proof.
  intros F Hc Hl. pose proof F as (HW & HH & _).
  destruct fg as [W H c]. cbn [FrameGrabber.width_ FrameGrabber.height_
                               FrameGrabber.frame_count_] in *.
  unfold run.
  rewrite (run_loop_uploads W H _ F)
    by (rewrite Upload.pattern_length; nia).
  rewrite <- (u32_small c) at 1 by exact Hc.
  rewrite iter_count.
  change (Z.to_nat MAX_FRAMES) with 300%nat.
  reflexivity.
Qed.

(** A 2x1 source and eight bytes of staging. *)
Lemma run_uploads_300_frames_witness :
  run (FrameGrabber.mk 2 1 5) (repeat 0 8)
  = Returns (300, FrameGrabber.mk 2 1 (u32 (5 + 300)),
             FrameGrabber.pattern 2 1).
Proof.
  apply (run_uploads_300_frames (FrameGrabber.mk 2 1 5) (repeat 0 8));
    evaluate.
Defined.

(** X19.  When the mapped staging memory is shorter than a frame, the first
    upload copies past its end: [run] has no defined result, and no error
    is raised. *)
Theorem run_overruns_a_short_mapping (fg : FrameGrabber.t) (mapped : list Z) :
  fits (FrameGrabber.width_ fg) (FrameGrabber.height_ fg) ->
  Z.of_nat (length mapped)
  < 4 * FrameGrabber.width_ fg * FrameGrabber.height_ fg ->
  run fg mapped = Undefined.
Proof.
  intros F Hl. pose proof F as (HW & HH & _).
  unfold run. change (Z.to_nat MAX_FRAMES) with 300%nat. cbn [run_loop].
  rewrite (TestPattern.grabFrame_pattern fg _ F).
  unfold upload, copy_into. cbn [data].
  rewrite Upload.pattern_length.
  destruct (Nat.leb_spec (Z.to_nat (FrameGrabber.height_ fg)
                          * (Z.to_nat (FrameGrabber.width_ fg) * 4))
                         (length mapped)); [nia|reflexivity].
Qed.

(** A 2x1 source and four bytes of staging. *)
Lemma run_overruns_a_short_mapping_witness :
  run (FrameGrabber.mk 2 1 5) (repeat 0 4) = Undefined.
Proof.
  apply (run_overruns_a_short_mapping (FrameGrabber.mk 2 1 5) (repeat 0 4));
    evaluate.
Defined.





End OrchestratorFacts.
